(** * music.py: feature extraction and training script of the genre classifier

    A shallow embedding of [src/music.py].  The numeric libraries the script
    calls (librosa, numpy, keras, scikit-learn) are not part of the
    repository: librosa's decoding and spectrogram functions and the
    filesystem are parameters of the model, numpy's array operations are
    written out on lists of rows, and numpy's floating point is idealised
    by exact real arithmetic extended with the IEEE special values that a
    division by zero produces. *)

From Stdlib Require Import String List Bool Arith ZArith Lia Sorted.
From Stdlib Require Import QArith Reals Lra.
Import ListNotations.

Open Scope string_scope.
Open Scope list_scope.
Open Scope nat_scope.

(** ** Constants of the script *)

Definition GENRES : list string :=
  ["blues"; "classical"; "country"; "disco"; "hiphop";
   "jazz"; "metal"; "pop"; "reggae"; "rock"].
Definition SAMPLE_RATE : Z := 22050%Z.
Definition TIME_FRAMES : nat := 250.
Definition N_MELS : nat := 128.

(** ** Exceptions

    An exception is represented by its message, [str(e)].  A call that may
    raise returns a [result]. *)

Definition exn := string.

Inductive result (A : Type) : Type :=
| Ok (a : A)
| Raise (e : exn).
Arguments Ok {A} a.
Arguments Raise {A} e.

Definition bind {A B} (r : result A) (k : A -> result B) : result B :=
  match r with
  | Ok a => k a
  | Raise e => Raise e
  end.

Notation "x <- r ;; k" := (bind r (fun x => k))
  (at level 61, r at next level, right associativity).

Definition is_ok {A} (r : result A) : bool :=
  match r with Ok _ => true | Raise _ => false end.

(** ** Two-dimensional arrays

    A numpy array of shape [(r, c)] is the list of its [r] rows, each of
    length [c]. *)

Definition matrix (A : Type) := list (list A).

(** [m.shape[0]] and [m.shape[1]] *)
Definition shape0 {A} (m : matrix A) : nat := length m.
Definition shape1 {A} (m : matrix A) : nat :=
  match m with
  | [] => 0
  | row :: _ => length row
  end.

(** [m] has shape [(r, c)] *)
Definition has_shape {A} (r c : nat) (m : matrix A) : Prop :=
  length m = r /\ Forall (fun row => length row = c) m.

(** Number of entries, [m.size] *)
Definition size {A} (m : matrix A) : nat := length (concat m).

(** [m[:, :n]] *)
Definition slice_cols {A} (n : nat) (m : matrix A) : matrix A :=
  map (firstn n) m.

(** [np.pad(m, ((0, 0), (0, w)), mode='constant')] with fill value [zero] *)
Definition pad_cols {A} (zero : A) (w : nat) (m : matrix A) : matrix A :=
  map (fun row => row ++ repeat zero w) m.

(** Lines 46-50: fit the spectrogram to [TIME_FRAMES] frames. *)
Definition fit_time_frames {A} (zero : A) (mel_spec_db : matrix A) : matrix A :=
  if TIME_FRAMES <? shape1 mel_spec_db then
    slice_cols TIME_FRAMES mel_spec_db
  else
    let pad_width := TIME_FRAMES - shape1 mel_spec_db in
    pad_cols zero pad_width mel_spec_db.

(** ** Floating-point values

    Finite values are exact reals; the special values are the ones IEEE
    arithmetic (and numpy, which only warns) returns for a division by
    zero. *)

Inductive npfloat : Type :=
| Fin (x : R)
| PInf
| NInf
| NaN.

Open Scope R_scope.

(** [a / b] on finite operands *)
Definition np_div (a b : R) : npfloat :=
  if Req_EM_T b 0 then
    if Req_EM_T a 0 then NaN
    else if Rlt_dec 0 a then PInf else NInf
  else Fin (a / b).

Definition rsum (l : list R) : R := fold_right Rplus 0 l.

(** [m.mean()]: the sum of all entries over their number *)
Definition mean (m : matrix R) : R :=
  rsum (concat m) / INR (size m).

(** [m.std()]: population standard deviation (numpy's default, [ddof=0]) *)
Definition std (m : matrix R) : R :=
  sqrt (rsum (map (fun x => (x - mean m) * (x - mean m)) (concat m))
        / INR (size m)).

(** Line 44: [(mel_spec_db - mel_spec_db.mean()) / mel_spec_db.std()].
    There is no test of the divisor. *)
Definition standardize (mel_spec_db : matrix R) : matrix npfloat :=
  let mu := mean mel_spec_db in
  let sigma := std mel_spec_db in
  map (map (fun x => np_div (x - mu) sigma)) mel_spec_db.

(** An array all of whose entries are finite *)
Definition fin_matrix (m : matrix R) : matrix npfloat := map (map Fin) m.

(** The standardised array when the divisor is not zero: the finite
    quotients [(x - mean) / std]. *)
Definition zscores (m : matrix R) : matrix R :=
  map (map (fun x => (x - mean m) / std m)) m.

Close Scope R_scope.

(** ** Strings *)

(** [s.endswith(suffix)] *)
Definition endswith (s suffix : string) : bool :=
  (String.length suffix <=? String.length s) &&
  String.eqb
    (substring (String.length s - String.length suffix) (String.length suffix) s)
    suffix.

(** [sub] occurs in [s] *)
Definition contains (s sub : string) : Prop :=
  exists pre post, s = String.append pre (String.append sub post).

(** ** Labels *)

(** [enumerate(l)] *)
Definition enumerate {A} (l : list A) : list (nat * A) :=
  combine (seq 0 (length l)) l.

(** One row of the one-hot array; the entries 0.0 and 1.0 are written 0
    and 1. *)
Definition one_hot (num_classes label : nat) : list nat :=
  map (fun j => if j =? label then 1 else 0) (seq 0 num_classes).

(** [keras.utils.to_categorical(labels)] with [num_classes] left to its
    default: the number of classes is inferred as [np.max(labels) + 1], and
    [np.max] raises on an empty array. *)
Definition to_categorical (labels : list nat) : result (matrix nat) :=
  match labels with
  | [] =>
      Raise "zero-size array to reduction operation maximum which has no identity"
  | _ :: _ =>
      let num_classes := list_max labels + 1 in
      Ok (map (one_hot num_classes) labels)
  end.

(** [a[..., np.newaxis]] on a stack of two-dimensional arrays *)
Definition add_newaxis {A} (a : list (matrix A)) : list (matrix (list A)) :=
  map (map (map (fun x => [x]))) a.

(** ** The feature extractor, [load_and_preprocess_data] *)

(** The two lists the function builds, and what it has printed. *)
Record state : Type := mkState {
  features : list (matrix npfloat);
  labels : list nat;
  stdout : list string
}.

Definition init_state : state := mkState [] [] [].

Section Extractor.

(** The filesystem and librosa. *)
Variable waveform : Type.
Variable listdir : string -> result (list string).
Variable path_join : string -> string -> string.
(** [librosa.load(path, sr=..., mono=...)] *)
Variable librosa_load : string -> Z -> bool -> result (waveform * Z).
(** [librosa.feature.melspectrogram(y=, sr=, n_mels=, n_fft=, hop_length=)] *)
Variable melspectrogram :
  waveform -> Z -> nat -> nat -> nat -> result (matrix R).
(** [librosa.power_to_db(S, ref=np.max)] *)
Variable power_to_db : matrix R -> result (matrix R).

(** Lines 32-42: the decibel mel-spectrogram of a file. *)
Definition mel_spec_db_of (audio_path : string) : result (matrix R) :=
  ysr <- librosa_load audio_path SAMPLE_RATE true ;;
  mel_spec <- melspectrogram (fst ysr) (snd ysr) N_MELS 2048 512 ;;
  power_to_db mel_spec.

(** Lines 32-50: the body of the [try] up to the two [append]s. *)
Definition extract_feature (audio_path : string) : result (matrix npfloat) :=
  mel_spec_db <- mel_spec_db_of audio_path ;;
  let mel_spec_db := standardize mel_spec_db in
  Ok (fit_time_frames (Fin 0%R) mel_spec_db).

(** The line printed by the [except] branch. *)
Definition error_line (audio_file : string) (e : exn) : string :=
  String.append "Error processing "
    (String.append audio_file (String.append ": " e)).

(** Lines 28-56: one iteration of the inner loop. *)
Definition process_file (genre_idx : nat) (genre_path : string)
    (st : state) (audio_file : string) : state :=
  if endswith audio_file ".wav" then
    let audio_path := path_join genre_path audio_file in
    match extract_feature audio_path with
    | Ok mel_spec_db =>
        mkState (features st ++ [mel_spec_db])
                (labels st ++ [genre_idx])
                (stdout st)
    | Raise e =>
        mkState (features st) (labels st)
                (stdout st ++ [error_line audio_file e])
    end
  else st.

(** Lines 27-56: the inner loop over a directory listing. *)
Definition process_files (genre_idx : nat) (genre_path : string)
    (files : list string) (st : state) : state :=
  fold_left (process_file genre_idx genre_path) files st.

(** Lines 25-56: the outer loop.  [os.listdir] is called outside the
    [try]; when it raises, the loop is left with the exception. *)
Fixpoint genre_loop (data_dir : string) (genres : list (nat * string))
    (st : state) : state * option exn :=
  match genres with
  | [] => (st, None)
  | (genre_idx, genre) :: rest =>
      let genre_path := path_join data_dir genre in
      match listdir genre_path with
      | Raise e => (st, Some e)
      | Ok files =>
          genre_loop data_dir rest
            (process_files genre_idx genre_path files st)
      end
  end.

(** Lines 22-58.  The result is what was printed, and either the pair
    [(X, y)] returned or the exception that left the function. *)
Definition load_and_preprocess_data (data_dir : string)
  : list string * result (list (matrix (list npfloat)) * matrix nat) :=
  match genre_loop data_dir (enumerate GENRES) init_state with
  | (st, Some e) => (stdout st, Raise e)
  | (st, None) =>
      (stdout st,
       y <- to_categorical (labels st) ;;
       Ok (add_newaxis (features st), y))
  end.

End Extractor.

(** ** The model builder, [create_enhanced_model] *)

Inductive layer : Type :=
| Conv2D (filters : nat) (kernel_size : nat * nat) (padding activation : string)
         (l2 : Q) (input_shape : option (list nat))
| BatchNormalization
| MaxPooling2D (pool_size : nat * nat)
| SpatialDropout2D (rate : Q)
| Flatten
| Dense (units : nat) (activation : string) (l2 : option Q)
| Dropout (rate : Q).

(** Lines 61-89: the list of layers given to [models.Sequential]. *)
Definition enhanced_layers (input_shape : list nat) (num_classes : nat)
  : list layer :=
  [ Conv2D 64 (3, 3) "same" "relu" (1 # 1000) (Some input_shape);
    BatchNormalization;
    MaxPooling2D (2, 2);
    SpatialDropout2D (2 # 10);

    Conv2D 128 (3, 3) "same" "relu" (1 # 1000) None;
    BatchNormalization;
    MaxPooling2D (2, 2);
    SpatialDropout2D (2 # 10);

    Conv2D 256 (3, 3) "same" "relu" (1 # 1000) None;
    BatchNormalization;
    MaxPooling2D (2, 2);
    SpatialDropout2D (2 # 10);

    Flatten;
    Dense 512 "relu" (Some (1 # 1000));
    BatchNormalization;
    Dropout (5 # 10);
    Dense 256 "relu" (Some (1 # 1000));
    BatchNormalization;
    Dropout (5 # 10);

    Dense num_classes "softmax" None ].

(** ** The training script, lines 93-152 *)

(** The arrays the extractor returns. *)
Definition Xarray := list (matrix (list npfloat)).
Definition yarray := matrix nat.

(** [a.shape[1:]] of a four-dimensional array *)
Definition shape_tail (a : Xarray) : list nat :=
  match a with
  | [] => []
  | sample :: _ => [shape0 sample; shape1 sample; shape1 (hd [] sample)]
  end.

(** The four arrays [train_test_split] returns. *)
Record split : Type := mkSplit {
  X_train : Xarray;
  X_test : Xarray;
  y_train : yarray;
  y_test : yarray
}.

Inductive callback : Type :=
| ReduceLROnPlateau (monitor : string) (factor : Q) (patience : nat) (min_lr : Q)
| EarlyStopping (monitor : string) (patience : nat) (restore_best_weights : bool).

(** Lines 100-106: the augmentation settings. *)
Record ImageDataGenerator : Type := mkImageDataGenerator {
  rotation_range : nat;
  width_shift_range : Q;
  height_shift_range : Q;
  zoom_range : Q;
  horizontal_flip : bool
}.

(** [datagen.flow(X, y, batch_size=)]: the batches [fit] trains on. *)
Inductive generator : Type :=
| Flow (datagen : ImageDataGenerator) (X : Xarray) (y : yarray) (batch_size : nat).

(** The calls the script makes on the model, with the arrays it passes. *)
Inductive call : Type :=
| CallFit (train : generator) (epochs : nat)
          (validation_data : Xarray * yarray) (callbacks : list callback)
| CallEvaluate (x : Xarray) (y : yarray)
| CallPredict (x : Xarray)
| CallSave (path : string).

Section Script.

Variable waveform : Type.
Variable listdir : string -> result (list string).
Variable path_join : string -> string -> string.
Variable librosa_load : string -> Z -> bool -> result (waveform * Z).
Variable melspectrogram :
  waveform -> Z -> nat -> nat -> nat -> result (matrix R).
Variable power_to_db : matrix R -> result (matrix R).

(** [train_test_split(X, y, test_size=, random_state=, stratify=)] *)
Variable train_test_split :
  Xarray -> yarray -> Q -> Z -> yarray -> result split.

(** keras: a model object, and the methods the script calls on it.
    [fit] trains in place; here it returns the trained model. *)
Variable keras_model : Type.
Variable metrics : Type.
Variable predictions : Type.
Variable Sequential : list layer -> keras_model.
(** [model.compile(optimizer=Adam(learning_rate=), loss=, metrics=)] *)
Variable compile : keras_model -> Q -> string -> list string -> keras_model.
(** [model.fit(generator, epochs=, validation_data=, callbacks=)] *)
Variable fit :
  keras_model -> generator -> nat -> Xarray * yarray ->
  list callback -> keras_model.
Variable evaluate : keras_model -> Xarray -> yarray -> metrics.
Variable predict : keras_model -> Xarray -> predictions.

(** Lines 60-91. *)
Definition create_enhanced_model (input_shape : list nat) (num_classes : nat)
  : keras_model :=
  Sequential (enhanced_layers input_shape num_classes).

Definition data_dir : string := "D:/Projects/DeepLearning/Data/genres_original".

(** What a run that reaches the end of the script has computed: the
    calls made on the model, in order, the metrics [model.evaluate]
    returned, the predictions, and the model that is saved. *)
Record outcome : Type := mkOutcome {
  calls : list call;
  test_metrics : metrics;
  y_pred : predictions;
  saved : keras_model
}.

Definition script : result outcome :=
  Xy <- snd (load_and_preprocess_data waveform listdir path_join
               librosa_load melspectrogram power_to_db data_dir) ;;
  let X := fst Xy in
  let y := snd Xy in
  s <- train_test_split X y (2 # 10) 42%Z y ;;
  let datagen := mkImageDataGenerator 10 (1 # 10) (1 # 10) (1 # 10) false in
  let model := create_enhanced_model (shape_tail (X_train s)) (length GENRES) in
  let model := compile model (1 # 10000) "categorical_crossentropy" ["accuracy"] in
  let reduce_lr := ReduceLROnPlateau "val_loss" (2 # 10) 5 (1 # 100000) in
  let early_stop := EarlyStopping "val_accuracy" 10 true in
  let model :=
    fit model (Flow datagen (X_train s) (y_train s) 32) 100
        (X_test s, y_test s) [reduce_lr; early_stop] in
  let test := evaluate model (X_test s) (y_test s) in
  let pred := predict model (X_test s) in
  Ok (mkOutcome
        [ CallFit (Flow datagen (X_train s) (y_train s) 32) 100
                  (X_test s, y_test s) [reduce_lr; early_stop];
          CallEvaluate (X_test s) (y_test s);
          CallPredict (X_test s);
          CallSave "enhanced_music_genre_classifier.h5" ]
        test pred model).

End Script.

Arguments calls {keras_model metrics predictions} o.
Arguments test_metrics {keras_model metrics predictions} o.
Arguments y_pred {keras_model metrics predictions} o.
Arguments saved {keras_model metrics predictions} o.

(** ** Shapes of the returned arrays *)

(** A three-dimensional array of shape [(r, c, d)] *)
Definition has_shape3 {A} (r c d : nat) (f : matrix (list A)) : Prop :=
  has_shape r c f /\ Forall (Forall (fun cell => length cell = d)) f.

(** ** Test doubles for the filesystem and librosa

    Used to run the extractor on concrete directories. *)

Definition posix_join (a b : string) : string :=
  String.append a (String.append "/" b).

Fixpoint lookup_dir (fs : list (string * list string)) (path : string)
  : option (list string) :=
  match fs with
  | [] => None
  | (p, files) :: rest => if String.eqb p path then Some files else lookup_dir rest path
  end.

(** A directory tree given by the listing of each directory; listing any
    other path raises, as [os.listdir] does. *)
Definition stub_listdir (fs : list (string * list string)) (path : string)
  : result (list string) :=
  match lookup_dir fs path with
  | Some files => Ok files
  | None => Raise (String.append "No such file or directory: " path)
  end.

(** Decoding: the files in [bad] cannot be decoded; the waveform of any
    other file is named by its path. *)
Definition stub_load (bad : list string) (path : string) (sr : Z) (mono : bool)
  : result (string * Z) :=
  if existsb (String.eqb path) bad then Raise "could not decode"
  else Ok (path, sr).

(** A spectrogram of [frames y] frames, of power 1 everywhere. *)
Definition stub_melspectrogram (frames : string -> nat)
    (y : string) (sr : Z) (n_mels n_fft hop_length : nat) : result (matrix R) :=
  Ok (repeat (repeat 1%R (frames y)) n_mels).

(** Decibels of a silent clip: 0 dB everywhere. *)
Definition db_silent (S : matrix R) : result (matrix R) :=
  Ok (map (map (fun _ => 0%R)) S).

(** Decibels of a click followed by silence: 0 dB in the first frame,
    -80 dB (the floor of [power_to_db]) afterwards. *)
Definition db_click (S : matrix R) : result (matrix R) :=
  Ok (map (fun row =>
             match row with
             | [] => []
             | _ :: rest => 0%R :: map (fun _ => (-80)%R) rest
             end) S).

(** A data directory in which every genre has one file. *)
Definition fs_full : list (string * list string) :=
  map (fun g => (posix_join "data" g, ["a.wav"])) GENRES.

(** The same, with an empty [rock] directory. *)
Definition fs_no_rock : list (string * list string) :=
  map (fun g => (posix_join "data" g, if String.eqb g "rock" then [] else ["a.wav"]))
      GENRES.

(** One genre directory with ten files, the others empty. *)
Definition ten_files : list string :=
  ["00.wav"; "01.wav"; "02.wav"; "03.wav"; "04.wav";
   "05.wav"; "06.wav"; "07.wav"; "08.wav"; "09.wav"].
Definition fs_ten : list (string * list string) :=
  map (fun g => (posix_join "data" g,
                 if String.eqb g "blues" then ten_files else []))
      GENRES.

(** ** What the script relies on from librosa

    [melspectrogram] returns an array of [n_mels] rows, one column per
    frame, and [power_to_db] works entry by entry. *)

Definition melspectrogram_contract {W}
    (melspectrogram : W -> Z -> nat -> nat -> nat -> result (matrix R)) : Prop :=
  forall y sr n_mels n_fft hop_length S,
    melspectrogram y sr n_mels n_fft hop_length = Ok S ->
    exists t, has_shape n_mels t S.

Definition power_to_db_contract
    (power_to_db : matrix R -> result (matrix R)) : Prop :=
  forall S D r c,
    power_to_db S = Ok D -> has_shape r c S -> has_shape r c D.

(** ** The files a run visits

    The [.wav] entries of the genre directories, in the order of the two
    loops, each with its genre index, its genre directory and its name. *)

Definition wav_files (files : list string) : list string :=
  filter (fun audio_file => endswith audio_file ".wav") files.

Definition listed_wavs (listdir : string -> result (list string))
    (path_join : string -> string -> string) (data_dir : string)
    (genres : list (nat * string)) : list (nat * string * string) :=
  flat_map
    (fun ig =>
       let genre_path := path_join data_dir (snd ig) in
       match listdir genre_path with
       | Ok files => map (fun f => (fst ig, genre_path, f)) (wav_files files)
       | Raise _ => []
       end)
    genres.

(** The first exception [os.listdir] raises over the genre directories. *)
Fixpoint first_listdir_error (listdir : string -> result (list string))
    (path_join : string -> string -> string) (data_dir : string)
    (genres : list (nat * string)) : option exn :=
  match genres with
  | [] => None
  | (_, genre) :: rest =>
      match listdir (path_join data_dir genre) with
      | Raise e => Some e
      | Ok _ => first_listdir_error listdir path_join data_dir rest
      end
  end.

(** What one visited file contributes to the two lists and to the
    output, given the result of its feature extraction. *)

Definition visit_features (r : result (matrix npfloat)) : list (matrix npfloat) :=
  match r with Ok x => [x] | Raise _ => [] end.

Definition visit_labels (genre_idx : nat) (r : result (matrix npfloat)) : list nat :=
  match r with Ok _ => [genre_idx] | Raise _ => [] end.

Definition visit_lines (audio_file : string) (r : result (matrix npfloat))
  : list string :=
  match r with
  | Ok _ => []
  | Raise e => [error_line audio_file e]
  end.

(** [st] with three lists appended to its three components. *)
Definition extend (st : state) (fs : list (matrix npfloat)) (ls : list nat)
    (out : list string) : state :=
  mkState (features st ++ fs) (labels st ++ ls) (stdout st ++ out).

(** The directory tree in which one entry of the listing of [genre_path],
    the one between [before] and [after], is absent. *)
Definition without_file (listdir : string -> result (list string))
    (genre_path : string) (before after : list string) (path : string)
  : result (list string) :=
  if String.eqb path genre_path then Ok (before ++ after) else listdir path.

(** The data directory of the script, every genre with one file. *)
Definition fs_script : list (string * list string) :=
  map (fun g => (posix_join data_dir g, ["a.wav"])) GENRES.

(** A split that puts the last fifth of the samples in the test arrays. *)
Definition stub_split (X : Xarray) (y : yarray) (test_size : Q)
    (random_state : Z) (stratify : yarray) : result split :=
  let k := length X - length X / 5 in
  Ok (mkSplit (firstn k X) (skipn k X) (firstn k y) (skipn k y)).

(** The decibel spectrograms the two conversions above give for a clip of
    two frames and for one of three. *)
Definition click_spectrogram : matrix R := repeat [0%R; (-80)%R] N_MELS.
Definition silent_spectrogram : matrix R := repeat (repeat 0%R 3) N_MELS.

(** The number of frames of a clip: a clip named by a longer path is
    longer; some are shorter than 250 frames and some longer. *)
Definition stub_frames (y : string) : nat := 15 * String.length y.

(** A model that counts how often it was fitted. *)
Definition stub_fit (model : nat) (train : generator) (epochs : nat)
    (validation_data : Xarray * yarray) (callbacks : list callback) : nat :=
  S model.

(** The data directory of the script without its [jazz] directory. *)
Definition fs_script_no_jazz : list (string * list string) :=
  filter (fun d => negb (String.eqb (fst d) (posix_join data_dir "jazz"))) fs_script.

(** ** Reading the labels back, lines 143-144 *)

(** The index of the first largest entry among [best_v], found at
    [best_i], and the entries of [row], which start at index [i]. *)
Fixpoint argmax_from (best_i best_v i : nat) (row : list nat) : nat :=
  match row with
  | [] => best_i
  | v :: rest =>
      if best_v <? v then argmax_from i v (S i) rest
      else argmax_from best_i best_v (S i) rest
  end.

(** [np.argmax] of one row; numpy raises on an empty sequence. *)
Definition argmax (row : list nat) : result nat :=
  match row with
  | [] => Raise "attempt to get argmax of an empty sequence"
  | v :: rest => Ok (argmax_from 0 v 1 rest)
  end.

(** [np.argmax(y, axis=1)] *)
Fixpoint argmax_axis1 (y : yarray) : result (list nat) :=
  match y with
  | [] => Ok []
  | row :: rest =>
      i <- argmax row ;;
      idx <- argmax_axis1 rest ;;
      Ok (i :: idx)
  end.

(** ** Output shapes of the layers

    The shape, without the batch axis, that keras computes for the output
    of a layer from the shape of its input: a convolution with unit
    strides, a pooling whose strides are its pool size and whose padding
    is [valid], a dense layer acting on the last axis. *)

Definition layer_output_shape (l : layer) (input : list nat) : result (list nat) :=
  match l, input with
  | Conv2D filters (kh, kw) padding _ _ _, [h; w; _] =>
      if String.eqb padding "same" then Ok [h; w; filters]
      else if String.eqb padding "valid" then
        if (kh <=? h) && (kw <=? w) then Ok [h - kh + 1; w - kw + 1; filters]
        else Raise "negative dimension size"
      else Raise "invalid padding"
  | Conv2D _ _ _ _ _ _, _ => Raise "Conv2D expects a three-dimensional input"
  | MaxPooling2D (ph, pw), [h; w; c] =>
      if (1 <=? ph) && (1 <=? pw) && (ph <=? h) && (pw <=? w)
      then Ok [(h - ph) / ph + 1; (w - pw) / pw + 1; c]
      else Raise "negative dimension size"
  | MaxPooling2D _, _ => Raise "MaxPooling2D expects a three-dimensional input"
  | SpatialDropout2D _, [h; w; c] => Ok [h; w; c]
  | SpatialDropout2D _, _ => Raise "SpatialDropout2D expects a three-dimensional input"
  | BatchNormalization, _ => Ok input
  | Dropout _, _ => Ok input
  | Flatten, _ => Ok [fold_right Nat.mul 1 input]
  | Dense units _ _, [] => Raise "Dense expects an input with a last axis"
  | Dense units _ _, _ :: _ => Ok (removelast input ++ [units])
  end.

(** The output shape of a stack of layers. *)
Fixpoint model_output_shape (layers : list layer) (input : list nat)
  : result (list nat) :=
  match layers with
  | [] => Ok input
  | l :: rest =>
      s <- layer_output_shape l input ;;
      model_output_shape rest s
  end.

(** ** Listings without the entries the loop passes over *)

Definition only_wavs (listdir : string -> result (list string)) (path : string)
  : result (list string) :=
  match listdir path with
  | Ok files => Ok (wav_files files)
  | Raise e => Raise e
  end.

(** What one visited file contributes as a (genre index, feature) pair. *)
Definition visit_pairs (genre_idx : nat) (r : result (matrix npfloat))
  : list (nat * matrix npfloat) :=
  match r with Ok x => [(genre_idx, x)] | Raise _ => [] end.

(** A decibel spectrogram with gain [a] and offset [b] applied to every
    entry. *)
Definition affine (a b : R) (m : matrix R) : matrix R :=
  map (map (fun x => (a * x + b)%R)) m.

(** A directory in which the first genre has a file that cannot be decoded
    and the sixth genre has no directory. *)
Definition fs_broken : list (string * list string) :=
  filter (fun d => negb (String.eqb (fst d) "data/jazz"))
    (map (fun g => (posix_join "data" g,
                    if String.eqb g "blues" then ["bad.wav"; "notes.txt"]
                    else ["a.wav"; "cover.jpg"]))
         GENRES).

(** Every genre directory present, none with a [.wav] file. *)
Definition fs_no_wav : list (string * list string) :=
  map (fun g => (posix_join "data" g, ["readme.txt"])) GENRES.

(** * Properties *)

(** ** The executable parts on small inputs *)

Example endswith_wav : endswith "blues.00000.wav" ".wav" = true.
Proof. reflexivity. Qed.

Example endswith_upper : endswith "blues.00000.WAV" ".wav" = false.
Proof. reflexivity. Qed.

Example endswith_short : endswith "wav" ".wav" = false.
Proof. reflexivity. Qed.

Example enumerate_genres :
  firstn 3 (enumerate GENRES) = [(0, "blues"); (1, "classical"); (2, "country")].
Proof. reflexivity. Qed.

Example to_categorical_infers_width :
  to_categorical [0; 2; 1] = Ok [[1; 0; 0]; [0; 0; 1]; [0; 1; 0]].
Proof. reflexivity. Qed.

Example to_categorical_empty : is_ok (to_categorical []) = false.
Proof. reflexivity. Qed.

Example fit_pads :
  map (firstn 5) (fit_time_frames 0 [[7; 8; 9]; [4; 5; 6]]) =
  [[7; 8; 9; 0; 0]; [4; 5; 6; 0; 0]].
Proof. reflexivity. Qed.

Example fit_cuts :
  map (@length nat) (fit_time_frames 0 [repeat 1 300; repeat 2 300]) = [250; 250].
Proof. reflexivity. Qed.

Example listing_missing_directory :
  is_ok (stub_listdir fs_script_no_jazz (posix_join data_dir "jazz")) = false.
Proof. reflexivity. Qed.

(** ** Shapes *)

Lemma has_shape_inv {A} (r c : nat) (row : list A) (m : matrix A) :
  has_shape r c (row :: m) ->
  length row = c /\ has_shape (pred r) c m.
Proof.
  intros [Hlen Hall]. inversion Hall; subst. simpl.
  repeat split; assumption.
Qed.

Lemma has_shape_shape1 {A} (r c : nat) (m : matrix A) :
  has_shape r c m -> m = [] \/ shape1 m = c.
Proof.
  intros Hm. destruct m as [|row m]; [now left | right].
  now apply has_shape_inv in Hm as [Hrow _].
Qed.

Lemma has_shape_map_rows {A B} (f : list A -> list B) (r c c' : nat) (m : matrix A) :
  (forall row, length row = c -> length (f row) = c') ->
  has_shape r c m -> has_shape r c' (map f m).
Proof.
  intros Hf [Hlen Hall]. split.
  - now rewrite length_map.
  - apply Forall_map. eapply Forall_impl; [|exact Hall]. exact Hf.
Qed.

Lemma has_shape_slice_cols {A} (n r c : nat) (m : matrix A) :
  n <= c -> has_shape r c m -> has_shape r n (slice_cols n m).
Proof.
  intros Hn. apply has_shape_map_rows.
  intros row Hrow. rewrite length_firstn. lia.
Qed.

Lemma has_shape_pad_cols {A} (zero : A) (w r c : nat) (m : matrix A) :
  has_shape r c m -> has_shape r (c + w) (pad_cols zero w m).
Proof.
  apply has_shape_map_rows.
  intros row Hrow. rewrite length_app, repeat_length. lia.
Qed.

Lemma has_shape_standardize (r c : nat) (m : matrix R) :
  has_shape r c m -> has_shape r c (standardize m).
Proof.
  apply has_shape_map_rows. intros row Hrow. now rewrite length_map.
Qed.

Lemma fit_time_frames_long {A} (zero : A) (r c : nat) (m : matrix A) :
  has_shape r c m -> TIME_FRAMES < c ->
  fit_time_frames zero m = slice_cols TIME_FRAMES m.
Proof.
  intros Hm Hc. unfold fit_time_frames.
  destruct (has_shape_shape1 _ _ _ Hm) as [-> | ->].
  - reflexivity.
  - apply Nat.ltb_lt in Hc. now rewrite Hc.
Qed.

Lemma fit_time_frames_short {A} (zero : A) (r c : nat) (m : matrix A) :
  has_shape r c m -> c <= TIME_FRAMES ->
  fit_time_frames zero m = pad_cols zero (TIME_FRAMES - c) m.
Proof.
  intros Hm Hc. unfold fit_time_frames.
  destruct (has_shape_shape1 _ _ _ Hm) as [-> | ->].
  - reflexivity.
  - apply Nat.ltb_ge in Hc. now rewrite Hc.
Qed.

Lemma has_shape_fit_time_frames {A} (zero : A) (r c : nat) (m : matrix A) :
  has_shape r c m -> has_shape r TIME_FRAMES (fit_time_frames zero m).
Proof.
  intros Hm. destruct (Nat.lt_ge_cases TIME_FRAMES c) as [Hc | Hc].
  - rewrite (fit_time_frames_long zero r c m Hm Hc).
    apply (has_shape_slice_cols _ r c); [lia | assumption].
  - rewrite (fit_time_frames_short zero r c m Hm Hc).
    pose proof (has_shape_pad_cols zero (TIME_FRAMES - c) r c m Hm) as Hpad.
    replace (c + (TIME_FRAMES - c)) with TIME_FRAMES in Hpad by lia.
    exact Hpad.
Qed.

Lemma pad_cols_0 {A} (zero : A) (m : matrix A) : pad_cols zero 0 m = m.
Proof.
  unfold pad_cols. simpl. rewrite <- (map_id m) at 2.
  apply map_ext. intros row. apply app_nil_r.
Qed.

(** C4: fitting an array of shape (r, c) gives shape (r, 250); a longer
    one is cut to the first 250 entries of each row, a shorter one gets
    250 - c zeros appended to each row, and one of exactly 250 frames is
    returned unchanged. *)
Theorem fit_time_frames_truncates_or_pads {A} (zero : A) (r c : nat) (m : matrix A) :
  has_shape r c m ->
  has_shape r TIME_FRAMES (fit_time_frames zero m) /\
  (TIME_FRAMES < c ->
   fit_time_frames zero m = map (firstn TIME_FRAMES) m) /\
  (c <= TIME_FRAMES ->
   fit_time_frames zero m =
   map (fun row => row ++ repeat zero (TIME_FRAMES - c)) m) /\
  (c = TIME_FRAMES -> fit_time_frames zero m = m).
Proof.
  intros Hm. repeat split.
  - now apply (has_shape_fit_time_frames zero r c).
  - now apply (has_shape_fit_time_frames zero r c).
  - intros Hc. now apply (fit_time_frames_long zero r c).
  - intros Hc. now apply (fit_time_frames_short zero r c).
  - intros ->. rewrite (fit_time_frames_short zero r TIME_FRAMES m Hm (le_n _)).
    rewrite Nat.sub_diag. apply pad_cols_0.
Qed.

Lemma fit_time_frames_truncates_or_pads_witness :
  has_shape 2 3 [[1; 2; 3]; [4; 5; 6]] /\
  fit_time_frames 0 [[1; 2; 3]; [4; 5; 6]] =
  map (fun row => row ++ repeat 0 (TIME_FRAMES - 3)) [[1; 2; 3]; [4; 5; 6]].
Proof.
  assert (H : has_shape 2 3 [[1; 2; 3]; [4; 5; 6]]).
  { split; [reflexivity | repeat constructor]. }
  split; [exact H |].
  apply (fit_time_frames_truncates_or_pads 0 2 3 _ H).
  unfold TIME_FRAMES. lia.
Defined.

(** ** Sums, mean and standard deviation *)

Section Statistics.

Open Scope R_scope.

Lemma rsum_app (l1 l2 : list R) : rsum (l1 ++ l2) = rsum l1 + rsum l2.
Proof.
  induction l1 as [|x l1 IH]; simpl.
  - lra.
  - rewrite IH. lra.
Qed.

Lemma rsum_nonneg (l : list R) :
  Forall (fun x => 0 <= x) l -> 0 <= rsum l.
Proof.
  induction 1 as [|x l Hx _ IH]; simpl; lra.
Qed.

Lemma rsum_zero_all (l : list R) :
  Forall (fun x => 0 <= x) l -> rsum l = 0 -> Forall (fun x => x = 0) l.
Proof.
  induction 1 as [|x l Hx Hl IH]; simpl; intros Hsum.
  - constructor.
  - pose proof (rsum_nonneg l Hl) as Hnn.
    constructor; [lra | apply IH; lra].
Qed.

(** Sum of an affine image: the sum of [(x - c) / s] over [l]. *)
Lemma rsum_standardized (c s : R) (l : list R) :
  rsum (map (fun x => (x - c) / s) l) = (rsum l - INR (length l) * c) / s.
Proof.
  induction l as [|x l IH].
  - simpl. unfold Rdiv. lra.
  - cbn [map rsum fold_right length]. fold (rsum (map (fun x => (x - c) / s) l)).
    fold (rsum l). rewrite IH, S_INR. unfold Rdiv. lra.
Qed.

Lemma rsum_map_scale (k : R) (f : R -> R) (l : list R) :
  rsum (map (fun x => k * f x) l) = k * rsum (map f l).
Proof.
  induction l as [|x l IH]; simpl.
  - lra.
  - fold (rsum (map (fun x => k * f x) l)). fold (rsum (map f l)).
    rewrite IH. lra.
Qed.

Lemma size_0_nil {A} (m : matrix A) : size m = 0%nat -> concat m = [].
Proof. unfold size. apply length_zero_iff_nil. Qed.

Lemma INR_size_pos {A} (m : matrix A) : size m <> 0%nat -> 0 < INR (size m).
Proof. intros H. apply lt_0_INR. lia. Qed.

(** The sum of squared deviations under the square root of [std]. *)
Lemma std_zero_entries (m : matrix R) :
  std m = 0 -> forall x, In x (concat m) -> x = mean m.
Proof.
  intros Hstd x Hx.
  destruct (Nat.eq_dec (size m) 0) as [Hz | Hnz].
  - rewrite (size_0_nil m Hz) in Hx. destruct Hx.
  - pose proof (INR_size_pos m Hnz) as Hn.
    set (sq := map (fun x => (x - mean m) * (x - mean m)) (concat m)) in *.
    assert (Hsq : Forall (fun v => 0 <= v) sq).
    { subst sq. apply Forall_map, Forall_forall. intros v _. cbv beta.
      apply Rle_0_sqr. }
    pose proof (rsum_nonneg sq Hsq) as Hsum.
    assert (Hvar : rsum sq / INR (size m) = 0).
    { apply sqrt_eq_0; [|exact Hstd].
      apply Rmult_le_pos; [exact Hsum|].
      apply Rlt_le, Rinv_0_lt_compat, Hn. }
    assert (H0 : rsum sq = 0).
    { unfold Rdiv in Hvar. apply Rmult_integral in Hvar as [H|H]; [exact H|].
      pose proof (Rinv_0_lt_compat _ Hn). lra. }
    pose proof (rsum_zero_all sq Hsq H0) as Hall.
    rewrite Forall_forall in Hall.
    specialize (Hall ((x - mean m) * (x - mean m))).
    assert (Hin : In ((x - mean m) * (x - mean m)) sq).
    { subst sq. apply in_map_iff. now exists x. }
    specialize (Hall Hin). nra.
Qed.

Lemma np_div_0_0 : np_div 0 0 = NaN.
Proof.
  unfold np_div. destruct (Req_EM_T 0 0) as [_|H]; [reflexivity | now elim H].
Qed.

Lemma np_div_finite (a b : R) : b <> 0 -> np_div a b = Fin (a / b).
Proof.
  intros Hb. unfold np_div. destruct (Req_EM_T b 0) as [H|_]; [now elim Hb | reflexivity].
Qed.

Lemma in_matrix_concat {A} (m : matrix A) (row : list A) (x : A) :
  In row m -> In x row -> In x (concat m).
Proof. intros Hrow Hx. apply in_concat. now exists row. Qed.

(** With a zero standard deviation every entry becomes 0/0. *)
Lemma standardize_zero_std (m : matrix R) :
  std m = 0 -> standardize m = map (map (fun _ => NaN)) m.
Proof.
  intros Hstd. unfold standardize.
  apply map_ext_in. intros row Hrow.
  apply map_ext_in. intros x Hx.
  rewrite (std_zero_entries m Hstd x (in_matrix_concat m row x Hrow Hx)).
  rewrite Hstd, Rminus_diag. apply np_div_0_0.
Qed.

(** With a non-zero standard deviation every entry is finite. *)
Lemma standardize_finite (m : matrix R) :
  std m <> 0 ->
  standardize m = fin_matrix (map (map (fun x => (x - mean m) / std m)) m).
Proof.
  intros Hstd. unfold standardize, fin_matrix.
  rewrite map_map. apply map_ext. intros row.
  rewrite map_map. apply map_ext. intros x.
  now apply np_div_finite.
Qed.

Lemma rsum_const (c : R) (l : list R) :
  Forall (fun x => x = c) l -> rsum l = INR (length l) * c.
Proof.
  induction 1 as [|x l Hx _ IH].
  - simpl. lra.
  - cbn [rsum fold_right length]. fold (rsum l). rewrite IH, S_INR, Hx. lra.
Qed.

(** A constant array has standard deviation 0. *)
Lemma std_const (c : R) (m : matrix R) :
  Forall (fun x => x = c) (concat m) -> std m = 0.
Proof.
  intros Hc. unfold std.
  assert (Hsq : rsum (map (fun x => (x - mean m) * (x - mean m)) (concat m)) = 0).
  { destruct (Nat.eq_dec (size m) 0) as [Hz | Hnz].
    - now rewrite (size_0_nil m Hz).
    - pose proof (INR_size_pos m Hnz) as Hn.
      assert (Hmean : mean m = c).
      { unfold mean. rewrite (rsum_const c _ Hc). fold (size m).
        field. lra. }
      rewrite Hmean.
      rewrite (rsum_const 0).
      + lra.
      + apply Forall_map. eapply Forall_impl; [|exact Hc].
        intros x ->. lra. }
  rewrite Hsq. unfold Rdiv. rewrite Rmult_0_l. apply sqrt_0.
Qed.

Lemma constant_matrix_entries (c : R) (r t : nat) :
  Forall (fun x => x = c) (concat (repeat (repeat c t) r)).
Proof.
  induction r as [|r IH]; simpl.
  - constructor.
  - apply Forall_app. split; [|exact IH].
    apply Forall_forall. intros x Hx. now apply repeat_spec in Hx.
Qed.

(** *** Statistics of a standardised and padded array *)

Lemma size_has_shape {A} (r c : nat) (m : matrix A) :
  has_shape r c m -> size m = (r * c)%nat.
Proof.
  intros [Hlen Hall]. subst r. unfold size.
  induction Hall as [|row m Hrow _ IH]; simpl; [reflexivity|].
  rewrite length_app, IH, Hrow. reflexivity.
Qed.

Lemma size_pad_cols {A} (zero : A) (w : nat) (m : matrix A) :
  size (pad_cols zero w m) = (size m + length m * w)%nat.
Proof.
  unfold size, pad_cols. induction m as [|row m IH]; simpl; [reflexivity|].
  rewrite !length_app, repeat_length, IH. lia.
Qed.

Lemma rsum_map_repeat (g : R -> R) (v : R) (n : nat) :
  rsum (map g (repeat v n)) = INR n * g v.
Proof.
  induction n as [|n IH].
  - simpl. lra.
  - cbn [repeat map rsum fold_right]. fold (rsum (map g (repeat v n))).
    rewrite IH, S_INR. lra.
Qed.

Lemma rsum_map_pad_cols (g : R -> R) (w : nat) (m : matrix R) :
  rsum (map g (concat (pad_cols 0 w m))) =
  rsum (map g (concat m)) + INR (length m * w) * g 0.
Proof.
  unfold pad_cols. induction m as [|row m IH].
  - simpl. lra.
  - cbn [map concat length]. rewrite !map_app, !rsum_app, IH, rsum_map_repeat.
    replace (S (length m) * w)%nat with (w + length m * w)%nat by lia.
    rewrite plus_INR. lra.
Qed.

Lemma mean_times_size (m : matrix R) :
  size m <> 0%nat -> INR (size m) * mean m = rsum (concat m).
Proof.
  intros Hn. pose proof (INR_size_pos m Hn). unfold mean. field. lra.
Qed.

Lemma std_nonzero_size (m : matrix R) : std m <> 0 -> size m <> 0%nat.
Proof.
  intros Hstd Hz. apply Hstd. unfold std.
  rewrite (size_0_nil m Hz). simpl. unfold Rdiv. rewrite Rmult_0_l. apply sqrt_0.
Qed.

Lemma std_sqr (m : matrix R) :
  size m <> 0%nat ->
  rsum (map (fun x => (x - mean m) * (x - mean m)) (concat m)) =
  std m * std m * INR (size m).
Proof.
  intros Hn. pose proof (INR_size_pos m Hn) as Hpos.
  unfold std. rewrite sqrt_sqrt.
  - field. lra.
  - apply Rmult_le_pos.
    + apply rsum_nonneg, Forall_map, Forall_forall. intros v _. cbv beta.
      apply Rle_0_sqr.
    + apply Rlt_le, Rinv_0_lt_compat, Hpos.
Qed.

Lemma has_shape_zscores (r c : nat) (m : matrix R) :
  has_shape r c m -> has_shape r c (zscores m).
Proof.
  apply has_shape_map_rows. intros row Hrow. now rewrite length_map.
Qed.

Lemma concat_zscores (m : matrix R) :
  concat (zscores m) = map (fun x => (x - mean m) / std m) (concat m).
Proof. unfold zscores. symmetry. apply concat_map. Qed.

Lemma zscores_sum (m : matrix R) :
  size m <> 0%nat -> rsum (concat (zscores m)) = 0.
Proof.
  intros Hn. rewrite concat_zscores, rsum_standardized. fold (size m).
  rewrite (mean_times_size m Hn). unfold Rdiv. lra.
Qed.

Lemma zscores_sum_squares (m : matrix R) :
  std m <> 0 ->
  rsum (map (fun x => (x - 0) * (x - 0)) (concat (zscores m))) = INR (size m).
Proof.
  intros Hstd. pose proof (std_nonzero_size m Hstd) as Hn.
  rewrite concat_zscores, map_map.
  rewrite (map_ext _ (fun x => / (std m * std m) * ((x - mean m) * (x - mean m)))).
  - rewrite (rsum_map_scale (/ (std m * std m))
               (fun x => (x - mean m) * (x - mean m))).
    rewrite (std_sqr m Hn). field. exact Hstd.
  - intros x. field. exact Hstd.
Qed.

(** The standardised array has mean 0 and standard deviation 1. *)
Lemma zscores_statistics (m : matrix R) :
  std m <> 0 -> mean (zscores m) = 0 /\ std (zscores m) = 1.
Proof.
  intros Hstd. pose proof (std_nonzero_size m Hstd) as Hn.
  assert (Hsize : size (zscores m) = size m).
  { unfold size. now rewrite concat_zscores, length_map. }
  assert (Hmean : mean (zscores m) = 0).
  { unfold mean. rewrite (zscores_sum m Hn). unfold Rdiv. lra. }
  split; [exact Hmean|].
  unfold std. rewrite Hmean, (zscores_sum_squares m Hstd), Hsize.
  pose proof (INR_size_pos m Hn).
  replace (INR (size m) / INR (size m)) with 1 by (field; lra).
  apply sqrt_1.
Qed.

(** Padding [w] zero columns keeps the mean at 0 and scales the variance
    by [c / (c + w)]. *)
Lemma padded_zscores_statistics (r c w : nat) (m : matrix R) :
  has_shape r c m -> std m <> 0 ->
  mean (pad_cols 0 w (zscores m)) = 0 /\
  std (pad_cols 0 w (zscores m)) = sqrt (INR c / INR (c + w)).
Proof.
  intros Hm Hstd. pose proof (std_nonzero_size m Hstd) as Hn.
  pose proof (has_shape_zscores r c m Hm) as HZ.
  pose proof (size_has_shape r c m Hm) as Hsize.
  assert (Hr : length (zscores m) = r) by apply HZ.
  assert (Hrc : r <> 0%nat /\ c <> 0%nat) by (split; intros ->; lia).
  destruct Hrc as [Hr0 Hc0].
  assert (HsizeF : size (pad_cols 0 w (zscores m)) = (r * (c + w))%nat).
  { rewrite size_pad_cols, (size_has_shape r c _ HZ), Hr. lia. }
  assert (Hmean : mean (pad_cols 0 w (zscores m)) = 0).
  { unfold mean.
    rewrite <- (map_id (concat (pad_cols 0 w (zscores m)))).
    rewrite (rsum_map_pad_cols (fun x => x)), map_id, (zscores_sum m Hn).
    unfold Rdiv. lra. }
  split; [exact Hmean|].
  unfold std. rewrite Hmean, HsizeF.
  rewrite (rsum_map_pad_cols (fun x => (x - 0) * (x - 0))).
  rewrite (zscores_sum_squares m Hstd), Hsize.
  f_equal. rewrite !mult_INR, !plus_INR.
  assert (0 < INR r) by (apply lt_0_INR; lia).
  assert (0 < INR c) by (apply lt_0_INR; lia).
  assert (0 <= INR w) by apply pos_INR.
  field. split; lra.
Qed.

Lemma shape1_fin_matrix (m : matrix R) : shape1 (fin_matrix m) = shape1 m.
Proof. destruct m as [|row m]; simpl; [reflexivity | apply length_map]. Qed.

Lemma fit_time_frames_fin_matrix (m : matrix R) :
  fit_time_frames (Fin 0) (fin_matrix m) = fin_matrix (fit_time_frames 0 m).
Proof.
  unfold fit_time_frames. rewrite shape1_fin_matrix.
  destruct (TIME_FRAMES <? shape1 m)%nat.
  - unfold slice_cols, fin_matrix. rewrite !map_map.
    apply map_ext. intros row. apply firstn_map.
  - unfold pad_cols, fin_matrix. rewrite !map_map.
    apply map_ext. intros row. rewrite map_app. f_equal.
    now rewrite map_repeat.
Qed.

(** The feature of a clip of at most 250 frames and non-zero standard
    deviation. *)
Lemma short_feature_finite (r c : nat) (m : matrix R) :
  has_shape r c m -> std m <> 0 -> (c <= TIME_FRAMES)%nat ->
  fit_time_frames (Fin 0) (standardize m) =
  fin_matrix (pad_cols 0 (TIME_FRAMES - c) (zscores m)).
Proof.
  intros Hm Hstd Hc.
  rewrite (standardize_finite m Hstd). fold (zscores m).
  rewrite fit_time_frames_fin_matrix.
  now rewrite (fit_time_frames_short 0 r c _ (has_shape_zscores r c m Hm) Hc).
Qed.

Lemma short_feature_statistics (r c : nat) (m : matrix R) :
  has_shape r c m -> std m <> 0 -> (c <= TIME_FRAMES)%nat ->
  exists F,
    fit_time_frames (Fin 0) (standardize m) = fin_matrix F /\
    mean F = 0 /\
    std F = sqrt (INR c / INR TIME_FRAMES).
Proof.
  intros Hm Hstd Hc.
  exists (pad_cols 0 (TIME_FRAMES - c) (zscores m)).
  split; [now apply (short_feature_finite r c)|].
  destruct (padded_zscores_statistics r c (TIME_FRAMES - c) m Hm Hstd) as [H1 H2].
  split; [exact H1|].
  rewrite H2. now replace (c + (TIME_FRAMES - c))%nat with TIME_FRAMES by lia.
Qed.

End Statistics.

(** ** One-hot rows *)

Lemma list_max_ge (l : list nat) (n : nat) : In n l -> n <= list_max l.
Proof.
  intros Hin. pose proof (proj1 (list_max_le l (list_max l)) (le_n _)) as Hall.
  rewrite Forall_forall in Hall. now apply Hall.
Qed.

Lemma to_categorical_ok (ls : list nat) (y : matrix nat) :
  to_categorical ls = Ok y -> y = map (one_hot (list_max ls + 1)) ls.
Proof. destruct ls; simpl; [discriminate | congruence]. Qed.

Lemma length_one_hot (n l : nat) : length (one_hot n l) = n.
Proof. unfold one_hot. now rewrite length_map, length_seq. Qed.

Lemma nth_one_hot (n l j : nat) :
  nth j (one_hot n l) 0 = if (j <? n) && (j =? l) then 1 else 0.
Proof.
  unfold one_hot.
  destruct (nth_error (map (fun j => if j =? l then 1 else 0) (seq 0 n)) j)
    as [v|] eqn:E.
  - rewrite (nth_error_nth _ _ 0 E).
    rewrite nth_error_map, nth_error_seq in E.
    destruct (j <? n); simpl in E; [|discriminate].
    injection E as <-. reflexivity.
  - rewrite nth_overflow by now apply nth_error_None.
    apply nth_error_None in E. rewrite length_map, length_seq in E.
    apply Nat.ltb_ge in E. now rewrite E.
Qed.

Lemma list_sum_indicator (l start len : nat) :
  list_sum (map (fun j => if j =? l then 1 else 0) (seq start len)) =
  if (start <=? l) && (l <? start + len) then 1 else 0.
Proof.
  revert start. induction len as [|len IH]; intros start; simpl.
  - destruct (start <=? l) eqn:E1; simpl; [|reflexivity].
    apply Nat.leb_le in E1.
    destruct (l <? start + 0) eqn:E2; [|reflexivity].
    apply Nat.ltb_lt in E2. lia.
  - rewrite IH.
    destruct (start =? l) eqn:E; [apply Nat.eqb_eq in E | apply Nat.eqb_neq in E];
      destruct (S start <=? l) eqn:E1;
      destruct (l <? S start + len) eqn:E2;
      destruct (start <=? l) eqn:E3;
      destruct (l <? start + S len) eqn:E4; simpl; try reflexivity;
      repeat match goal with
             | H : (_ <=? _) = true |- _ => apply Nat.leb_le in H
             | H : (_ <=? _) = false |- _ => apply Nat.leb_gt in H
             | H : (_ <? _) = true |- _ => apply Nat.ltb_lt in H
             | H : (_ <? _) = false |- _ => apply Nat.ltb_ge in H
             end; lia.
Qed.

(** X3: every row of the array [to_categorical] returns has the common
    width [max(labels) + 1], holds 1 at the index of its label and 0
    elsewhere, and sums to 1. *)
Theorem to_categorical_rows (ls : list nat) (y : matrix nat) :
  to_categorical ls = Ok y ->
  length y = length ls /\
  forall k l,
    nth_error ls k = Some l ->
    exists row,
      nth_error y k = Some row /\
      length row = list_max ls + 1 /\
      nth l row 0 = 1 /\
      (forall j, j <> l -> nth j row 0 = 0) /\
      list_sum row = 1.
Proof.
  intros Hy. apply to_categorical_ok in Hy. subst y.
  split; [apply length_map|].
  intros k l Hk. exists (one_hot (list_max ls + 1) l).
  assert (Hl : l < list_max ls + 1).
  { apply nth_error_In, list_max_ge in Hk. lia. }
  split; [now rewrite nth_error_map, Hk|].
  split; [apply length_one_hot|].
  split; [|split].
  - rewrite nth_one_hot, Nat.eqb_refl.
    apply Nat.ltb_lt in Hl. now rewrite Hl.
  - intros j Hj. rewrite nth_one_hot.
    apply Nat.eqb_neq in Hj. rewrite Hj. now rewrite andb_false_r.
  - unfold one_hot. rewrite list_sum_indicator. simpl.
    apply Nat.ltb_lt in Hl. now rewrite Hl.
Qed.

Lemma to_categorical_rows_witness :
  to_categorical [0; 2; 1] = Ok [[1; 0; 0]; [0; 0; 1]; [0; 1; 0]] /\
  exists row,
    nth_error [[1; 0; 0]; [0; 0; 1]; [0; 1; 0]] 1 = Some row /\
    length row = list_max [0; 2; 1] + 1 /\
    nth 2 row 0 = 1 /\
    (forall j, j <> 2 -> nth j row 0 = 0) /\
    list_sum row = 1.
Proof.
  split; [reflexivity|].
  exact (proj2 (to_categorical_rows [0; 2; 1] _ eq_refl) 1 2 eq_refl).
Defined.

(** ** Reading the labels back *)

Lemma argmax_from_kept (best_i best_v i : nat) (row : list nat) :
  Forall (fun v => v <= best_v) row ->
  argmax_from best_i best_v i row = best_i.
Proof.
  revert i. induction row as [|v row IH]; intros i Hall; simpl; [reflexivity|].
  inversion Hall as [|? ? Hv Hrow]; subst.
  apply Nat.ltb_ge in Hv. rewrite Hv. now apply IH.
Qed.

Lemma indicator_le_1 (l start len : nat) :
  Forall (fun v => v <= 1)
    (map (fun j => if j =? l then 1 else 0) (seq start len)).
Proof.
  apply Forall_map, Forall_forall. intros j _. destruct (j =? l); lia.
Qed.

Lemma argmax_from_indicator (best_i l start len : nat) :
  start <= l < start + len ->
  argmax_from best_i 0 start
    (map (fun j => if j =? l then 1 else 0) (seq start len)) = l.
Proof.
  revert start best_i. induction len as [|len IH]; intros start best_i Hl; [lia|].
  simpl. destruct (start =? l) eqn:E.
  - apply Nat.eqb_eq in E. subst l. simpl.
    apply argmax_from_kept, indicator_le_1.
  - apply Nat.eqb_neq in E. simpl. apply IH. lia.
Qed.

Lemma argmax_one_hot (n l : nat) : l < n -> argmax (one_hot n l) = Ok l.
Proof.
  intros Hl. destruct n as [|n]; [lia|].
  unfold one_hot. simpl. f_equal. destruct l as [|l]; simpl.
  - apply argmax_from_kept, indicator_le_1.
  - apply argmax_from_indicator. lia.
Qed.

Lemma argmax_axis1_one_hot (n : nat) (ls : list nat) :
  Forall (fun l => l < n) ls ->
  argmax_axis1 (map (one_hot n) ls) = Ok ls.
Proof.
  induction 1 as [|l ls Hl _ IH]; simpl; [reflexivity|].
  rewrite (argmax_one_hot n l Hl). simpl. now rewrite IH.
Qed.

(** X4: taking the index of the largest entry of each row of the one-hot
    array gives back the list of labels it was made from. *)
Theorem argmax_to_categorical (ls : list nat) (y : matrix nat) :
  to_categorical ls = Ok y -> argmax_axis1 y = Ok ls.
Proof.
  intros Hy. apply to_categorical_ok in Hy. subst y.
  apply argmax_axis1_one_hot, Forall_forall.
  intros l Hl. apply list_max_ge in Hl. lia.
Qed.

Lemma argmax_to_categorical_witness :
  to_categorical [0; 2; 1] = Ok [[1; 0; 0]; [0; 0; 1]; [0; 1; 0]] /\
  argmax_axis1 [[1; 0; 0]; [0; 0; 1]; [0; 1; 0]] = Ok [0; 2; 1].
Proof.
  split; [reflexivity|].
  exact (argmax_to_categorical [0; 2; 1] _ eq_refl).
Defined.

(** ** The loops of the extractor *)

Section ExtractorProperties.

Variable waveform : Type.
Variable listdir : string -> result (list string).
Variable path_join : string -> string -> string.
Variable librosa_load : string -> Z -> bool -> result (waveform * Z).
Variable melspectrogram :
  waveform -> Z -> nat -> nat -> nat -> result (matrix R).
Variable power_to_db : matrix R -> result (matrix R).

Local Abbreviation db_of := (mel_spec_db_of waveform librosa_load melspectrogram power_to_db).
Local Abbreviation extract := (extract_feature waveform librosa_load melspectrogram power_to_db).
Local Abbreviation step :=
  (process_file waveform path_join librosa_load melspectrogram power_to_db).
Local Abbreviation inner :=
  (process_files waveform path_join librosa_load melspectrogram power_to_db).
Local Abbreviation outer :=
  (genre_loop waveform listdir path_join librosa_load melspectrogram power_to_db).
Local Abbreviation load :=
  (load_and_preprocess_data waveform listdir path_join librosa_load
     melspectrogram power_to_db).

(** *** One iteration *)

Lemma process_file_other gi gp st f :
  endswith f ".wav" = false -> step gi gp st f = st.
Proof. intros H. unfold process_file. now rewrite H. Qed.

Lemma process_file_ok gi gp st f x :
  endswith f ".wav" = true ->
  extract (path_join gp f) = Ok x ->
  step gi gp st f =
  mkState (features st ++ [x]) (labels st ++ [gi]) (stdout st).
Proof. intros H E. unfold process_file. now rewrite H, E. Qed.

Lemma process_file_raise gi gp st f e :
  endswith f ".wav" = true ->
  extract (path_join gp f) = Raise e ->
  step gi gp st f =
  mkState (features st) (labels st) (stdout st ++ [error_line f e]).
Proof. intros H E. unfold process_file. now rewrite H, E. Qed.

Lemma extract_feature_ok path m :
  db_of path = Ok m ->
  extract path = Ok (fit_time_frames (Fin 0%R) (standardize m)).
Proof. intros E. unfold extract_feature. now rewrite E. Qed.

Lemma extract_feature_inv path x :
  extract path = Ok x ->
  exists m, db_of path = Ok m /\
            x = fit_time_frames (Fin 0%R) (standardize m).
Proof.
  unfold extract_feature. destruct (db_of path) as [m|e]; simpl; intros E.
  - exists m. split; [reflexivity | congruence].
  - discriminate.
Qed.

(** *** Invariants of the two loops *)

Lemma process_files_invariant (P : state -> Prop) gi gp :
  (forall st f, P st -> P (step gi gp st f)) ->
  forall files st, P st -> P (inner gi gp files st).
Proof.
  intros Hstep files. unfold process_files.
  induction files as [|f files IH]; simpl; intros st Hst.
  - exact Hst.
  - apply IH, Hstep, Hst.
Qed.

Lemma genre_loop_invariant (P : state -> Prop) data_dir :
  (forall gi gp st f, P st -> P (step gi gp st f)) ->
  forall genres st, P st -> P (fst (outer data_dir genres st)).
Proof.
  intros Hstep genres.
  induction genres as [|[gi g] genres IH]; simpl; intros st Hst.
  - exact Hst.
  - destruct (listdir (path_join data_dir g)) as [files|e]; simpl.
    + apply IH. apply process_files_invariant; [apply Hstep | exact Hst].
    + exact Hst.
Qed.

(** *** The loops as a walk over the visited files *)

Local Abbreviation result_of v := (extract (path_join (snd (fst v)) (snd v))).
Local Abbreviation features_of vs :=
  (flat_map (fun v : nat * string * string => visit_features (result_of v)) vs).
Local Abbreviation labels_of vs :=
  (flat_map (fun v : nat * string * string =>
               visit_labels (fst (fst v)) (result_of v)) vs).
Local Abbreviation lines_of vs :=
  (flat_map (fun v : nat * string * string => visit_lines (snd v) (result_of v)) vs).

Lemma extend_nil st : extend st [] [] [] = st.
Proof. destruct st. unfold extend. simpl. now rewrite !app_nil_r. Qed.

Lemma extend_extend st fs ls out fs' ls' out' :
  extend (extend st fs ls out) fs' ls' out' =
  extend st (fs ++ fs') (ls ++ ls') (out ++ out').
Proof. unfold extend. simpl. now rewrite !app_assoc. Qed.

Lemma process_file_visit gi gp st f :
  endswith f ".wav" = true ->
  step gi gp st f =
  extend st (visit_features (extract (path_join gp f)))
            (visit_labels gi (extract (path_join gp f)))
            (visit_lines f (extract (path_join gp f))).
Proof.
  intros H. unfold process_file, extend. rewrite H.
  destruct (extract (path_join gp f)) as [x|e]; simpl.
  - now rewrite app_nil_r.
  - now rewrite !app_nil_r.
Qed.

Lemma process_files_walk gi gp files st :
  inner gi gp files st =
  let vs := map (fun f => (gi, gp, f)) (wav_files files) in
  extend st (features_of vs) (labels_of vs) (lines_of vs).
Proof.
  unfold process_files. revert st.
  induction files as [|f files IH]; intros st; simpl.
  - now rewrite extend_nil.
  - rewrite IH. destruct (endswith f ".wav") eqn:E; simpl.
    + rewrite (process_file_visit _ _ _ _ E). now rewrite extend_extend.
    + now rewrite (process_file_other _ _ _ _ E).
Qed.

Lemma genre_loop_error data_dir genres st :
  snd (outer data_dir genres st) =
  first_listdir_error listdir path_join data_dir genres.
Proof.
  revert st. induction genres as [|[gi g] genres IH]; intros st; simpl.
  - reflexivity.
  - destruct (listdir (path_join data_dir g)); [apply IH | reflexivity].
Qed.

Lemma genre_loop_walk data_dir genres st :
  first_listdir_error listdir path_join data_dir genres = None ->
  fst (outer data_dir genres st) =
  let vs := listed_wavs listdir path_join data_dir genres in
  extend st (features_of vs) (labels_of vs) (lines_of vs).
Proof.
  revert st. induction genres as [|[gi g] genres IH]; intros st; simpl.
  - intros _. now rewrite extend_nil.
  - unfold listed_wavs. simpl.
    destruct (listdir (path_join data_dir g)) as [files|e]; [|discriminate].
    intros Hrest. rewrite (IH _ Hrest), process_files_walk. simpl.
    rewrite extend_extend. unfold listed_wavs.
    now rewrite !flat_map_app.
Qed.

(** A run whose directory listings all succeed: what is printed and
    what is returned, from the visited files. *)
Lemma load_walk data_dir :
  first_listdir_error listdir path_join data_dir (enumerate GENRES) = None ->
  load data_dir =
  let vs := listed_wavs listdir path_join data_dir (enumerate GENRES) in
  (lines_of vs,
   y <- to_categorical (labels_of vs) ;; Ok (add_newaxis (features_of vs), y)).
Proof.
  intros H. unfold load_and_preprocess_data.
  pose proof (genre_loop_walk data_dir (enumerate GENRES) init_state H) as Hst.
  pose proof (genre_loop_error data_dir (enumerate GENRES) init_state) as He.
  rewrite H in He.
  destruct (outer data_dir (enumerate GENRES) init_state) as [st err].
  simpl in Hst, He. subst st err. reflexivity.
Qed.

(** A run in which a directory listing raises. *)
Lemma load_abort data_dir e :
  first_listdir_error listdir path_join data_dir (enumerate GENRES) = Some e ->
  exists out, load data_dir = (out, Raise e).
Proof.
  intros H. unfold load_and_preprocess_data.
  pose proof (genre_loop_error data_dir (enumerate GENRES) init_state) as He.
  rewrite H in He.
  destruct (outer data_dir (enumerate GENRES) init_state) as [st err].
  simpl in He. subst err. now exists (stdout st).
Qed.

(** *** Shape of the features *)

Lemma mel_spec_db_shape path m :
  melspectrogram_contract melspectrogram ->
  power_to_db_contract power_to_db ->
  db_of path = Ok m ->
  exists t, has_shape N_MELS t m.
Proof.
  intros Hmel Hdb. unfold mel_spec_db_of.
  destruct (librosa_load path SAMPLE_RATE true) as [[y sr]|e]; simpl;
    [|discriminate].
  destruct (melspectrogram y sr N_MELS 2048 512) as [S|e] eqn:ES; simpl;
    [|discriminate].
  intros ED. destruct (Hmel _ _ _ _ _ _ ES) as [t Ht].
  exists t. exact (Hdb _ _ _ _ ED Ht).
Qed.

Lemma extract_feature_shape path x :
  melspectrogram_contract melspectrogram ->
  power_to_db_contract power_to_db ->
  extract path = Ok x ->
  has_shape N_MELS TIME_FRAMES x.
Proof.
  intros Hmel Hdb E.
  destruct (extract_feature_inv _ _ E) as (m & Em & ->).
  destruct (mel_spec_db_shape _ _ Hmel Hdb Em) as [t Ht].
  apply (has_shape_fit_time_frames _ N_MELS t).
  now apply has_shape_standardize.
Qed.

Lemma has_shape3_newaxis {A} (r c : nat) (x : matrix A) :
  has_shape r c x ->
  has_shape3 r c 1 (map (map (fun v => [v])) x).
Proof.
  intros Hx. split.
  - revert Hx. apply has_shape_map_rows.
    intros row Hrow. now rewrite length_map.
  - apply Forall_map, Forall_forall. intros row _.
    apply Forall_map, Forall_forall. intros v _. reflexivity.
Qed.


(** *** Zero-variance clips *)


Lemma enumerate_from_nth {A} (l : list A) (start i : nat) (a : A) :
  nth_error l i = Some a -> In (start + i, a) (combine (seq start (length l)) l).
Proof.
  revert start i. induction l as [|b l IH]; intros start [|i]; simpl; try discriminate.
  - intros [= ->]. left. f_equal. lia.
  - intros H. right. replace (start + S i) with (S start + i) by lia.
    now apply IH.
Qed.

Lemma enumerate_nth {A} (l : list A) (i : nat) (a : A) :
  nth_error l i = Some a -> In (i, a) (enumerate l).
Proof. intros H. exact (enumerate_from_nth l 0 i a H). Qed.

Lemma listed_wavs_In data_dir genres gi g files f :
  In (gi, g) genres ->
  listdir (path_join data_dir g) = Ok files ->
  In f files -> endswith f ".wav" = true ->
  In (gi, path_join data_dir g, f) (listed_wavs listdir path_join data_dir genres).
Proof.
  intros Hg Hls Hf Hwav. unfold listed_wavs.
  apply in_flat_map. exists (gi, g). split; [exact Hg|].
  simpl. rewrite Hls. apply in_map. unfold wav_files.
  apply filter_In. now split.
Qed.

(** The two lists grow together: a visited file whose extraction succeeds
    has its feature and its genre index at the same position. *)
Lemma walk_aligned (vs : list (nat * string * string)) v x :
  In v vs -> result_of v = Ok x ->
  exists k, nth_error (features_of vs) k = Some x /\
            nth_error (labels_of vs) k = Some (fst (fst v)).
Proof.
  induction vs as [|w vs IH]; intros Hin Hres; [destruct Hin|].
  simpl. destruct Hin as [-> | Hin].
  - rewrite Hres. exists 0%nat. now split.
  - destruct (IH Hin Hres) as (k & Hf & Hl).
    destruct (result_of w) as [x'|e]; simpl.
    + exists (S k). now split.
    + exists k. now split.
Qed.

Lemma load_returned_listings data_dir out X y :
  load data_dir = (out, Ok (X, y)) ->
  first_listdir_error listdir path_join data_dir (enumerate GENRES) = None.
Proof.
  intros Hload.
  destruct (first_listdir_error listdir path_join data_dir (enumerate GENRES))
    as [e|] eqn:E; [|reflexivity].
  destruct (load_abort data_dir e E) as [out' Habort]. congruence.
Qed.

(** What a returned pair is made of. *)
Lemma load_returned data_dir out X y :
  load data_dir = (out, Ok (X, y)) ->
  let vs := listed_wavs listdir path_join data_dir (enumerate GENRES) in
  out = lines_of vs /\
  X = add_newaxis (features_of vs) /\
  y = map (one_hot (list_max (labels_of vs) + 1)) (labels_of vs).
Proof.
  intros Hload vs. pose proof (load_returned_listings _ _ _ _ Hload) as Hls.
  rewrite (load_walk data_dir Hls) in Hload. cbv zeta in Hload.
  fold vs in Hload. injection Hload as Hout Hres.
  destruct (to_categorical (labels_of vs)) as [y'|e] eqn:Ey;
    cbn [bind] in Hres; [|discriminate].
  injection Hres as HX Hy. subst y'.
  repeat split; [congruence | congruence |].
  now apply to_categorical_ok.
Qed.

Lemma nan_feature_extracted (m : matrix R) :
  std m = 0%R ->
  forall path,
    db_of path = Ok m ->
    extract path = Ok (fit_time_frames (Fin 0%R) (map (map (fun _ => NaN)) m)).
Proof.
  intros Hstd path Hdb.
  rewrite (extract_feature_ok _ _ Hdb). now rewrite (standardize_zero_std m Hstd).
Qed.


(** *** Directory listings *)

Lemma first_listdir_error_In data_dir genres gi g e :
  In (gi, g) genres ->
  listdir (path_join data_dir g) = Raise e ->
  exists e' gi' g',
    first_listdir_error listdir path_join data_dir genres = Some e' /\
    In (gi', g') genres /\
    listdir (path_join data_dir g') = Raise e'.
Proof.
  induction genres as [|[gi0 g0] genres IH]; intros Hin Hls; [destruct Hin|].
  simpl. destruct (listdir (path_join data_dir g0)) as [files|e0] eqn:E0.
  - destruct Hin as [[= -> ->] | Hin]; [congruence|].
    destruct (IH Hin Hls) as (e' & gi' & g' & Hfirst & Hin' & Hls').
    exists e', gi', g'. repeat split; [exact Hfirst | now right | exact Hls'].
  - exists e0, gi0, g0. repeat split; [now left | exact E0].
Qed.

Lemma In_enumerate {A} (l : list A) (a : A) :
  In a l -> exists i, In (i, a) (enumerate l).
Proof.
  intros Hin. destruct (In_nth_error l a Hin) as [i Hi].
  exists i. now apply enumerate_nth.
Qed.

Lemma enumerate_In {A} (l : list A) (i : nat) (a : A) :
  In (i, a) (enumerate l) -> In a l.
Proof. unfold enumerate. apply in_combine_r. Qed.

(** *** Counting *)

Lemma length_features_of (vs : list (nat * string * string)) :
  length (features_of vs) = length (filter (fun v => is_ok (result_of v)) vs).
Proof.
  induction vs as [|v vs IH]; simpl; [reflexivity|].
  rewrite length_app, IH. destruct (result_of v); reflexivity.
Qed.

Lemma length_labels_of (vs : list (nat * string * string)) :
  length (labels_of vs) = length (features_of vs).
Proof.
  induction vs as [|v vs IH]; simpl; [reflexivity|].
  rewrite !length_app, IH. destruct (result_of v); reflexivity.
Qed.

Lemma length_lines_of (vs : list (nat * string * string)) :
  length (lines_of vs) =
  length (filter (fun v => negb (is_ok (result_of v))) vs).
Proof.
  induction vs as [|v vs IH]; simpl; [reflexivity|].
  rewrite length_app, IH. destruct (result_of v); reflexivity.
Qed.

Lemma length_filter_split {A} (p : A -> bool) (l : list A) :
  length (filter p l) + length (filter (fun a => negb (p a)) l) = length l.
Proof.
  induction l as [|a l IH]; simpl; [reflexivity|].
  destruct (p a); simpl; lia.
Qed.

(** C6: a returned pair has as many label rows as features; the features
    are those of the visited [.wav] files whose extraction succeeded, so
    features and failed files add up to the visited files, and ten visited
    files of which one fails give nine features and nine labels. *)
Theorem label_count_matches_features data_dir out X y :
  load data_dir = (out, Ok (X, y)) ->
  let vs := listed_wavs listdir path_join data_dir (enumerate GENRES) in
  let failed := filter (fun v => negb (is_ok (result_of v))) vs in
  length y = length X /\
  X = add_newaxis (features_of vs) /\
  length X + length failed = length vs /\
  (length vs = 10 -> length failed = 1 -> length X = 9 /\ length y = 9).
Proof.
  intros Hload vs failed.
  destruct (load_returned _ _ _ _ Hload) as (_ & HX & Hy).
  fold vs in HX, Hy.
  assert (HlenX : length X = length (features_of vs)).
  { rewrite HX. unfold add_newaxis. apply length_map. }
  assert (Hleny : length y = length X).
  { rewrite Hy, length_map, length_labels_of. now rewrite HlenX. }
  assert (Hsum : length X + length failed = length vs).
  { rewrite HlenX, length_features_of. apply length_filter_split. }
  repeat split; [exact Hleny | exact HX | exact Hsum | lia | lia].
Qed.

(** *** Where a file's feature ends up *)

Lemma feature_in_returned data_dir gi g files f x out X y :
  nth_error GENRES gi = Some g ->
  listdir (path_join data_dir g) = Ok files ->
  In f files ->
  endswith f ".wav" = true ->
  extract (path_join (path_join data_dir g) f) = Ok x ->
  load data_dir = (out, Ok (X, y)) ->
  In (map (map (fun v => [v])) x) X.
Proof.
  intros Hg Hls Hf Hwav Hext Hload.
  destruct (load_returned _ _ _ _ Hload) as (_ & -> & _).
  pose proof (listed_wavs_In data_dir (enumerate GENRES) gi g files f
                (enumerate_nth _ _ _ Hg) Hls Hf Hwav) as Hin.
  destruct (walk_aligned _ (gi, path_join data_dir g, f) x Hin Hext)
    as (k & Hfk & _).
  unfold add_newaxis. apply in_map. exact (nth_error_In _ _ Hfk).
Qed.

(** The function returns as soon as every listing succeeds and one file is
    extracted. *)
Lemma load_returns data_dir gi g files f x :
  first_listdir_error listdir path_join data_dir (enumerate GENRES) = None ->
  nth_error GENRES gi = Some g ->
  listdir (path_join data_dir g) = Ok files ->
  In f files ->
  endswith f ".wav" = true ->
  extract (path_join (path_join data_dir g) f) = Ok x ->
  exists out X y, load data_dir = (out, Ok (X, y)).
Proof.
  intros Hnone Hg Hls Hf Hwav Hext.
  pose proof (listed_wavs_In data_dir (enumerate GENRES) gi g files f
                (enumerate_nth _ _ _ Hg) Hls Hf Hwav) as Hin.
  destruct (walk_aligned _ (gi, path_join data_dir g, f) x Hin Hext)
    as (k & _ & Hlk).
  rewrite (load_walk data_dir Hnone). cbv zeta.
  destruct (labels_of (listed_wavs listdir path_join data_dir (enumerate GENRES)))
    as [|l ls] eqn:El.
  - destruct k; discriminate.
  - do 3 eexists. reflexivity.
Qed.

(** *** Mean and standard deviation of a feature *)


(** *** When the function returns *)

Lemma labels_of_success (vs : list (nat * string * string)) l :
  In l (labels_of vs) ->
  exists v x, In v vs /\ result_of v = Ok x /\ fst (fst v) = l.
Proof.
  induction vs as [|w vs IH]; simpl; intros Hin; [destruct Hin|].
  apply in_app_or in Hin as [Hin | Hin].
  - destruct (result_of w) as [x|e] eqn:E; simpl in Hin; [|destruct Hin].
    destruct Hin as [<- | []]. exists w, x. repeat split; [now left | exact E].
  - destruct (IH Hin) as (v & x & Hv & Hres & Hl).
    exists v, x. repeat split; [now right | exact Hres | exact Hl].
Qed.

Lemma labels_of_none (vs : list (nat * string * string)) :
  (forall v, In v vs -> is_ok (result_of v) = false) -> labels_of vs = [].
Proof.
  intros Hall. destruct (labels_of vs) as [|l ls] eqn:E; [reflexivity|].
  destruct (labels_of_success vs l) as (v & x & Hv & Hres & _).
  { rewrite E. now left. }
  specialize (Hall v Hv). rewrite Hres in Hall. discriminate.
Qed.

(** X8: when every genre directory can be listed and no [.wav] file
    gives a feature (no such file, or every one fails), the function does
    not return empty arrays: it raises the exception of [np.max] on the
    empty label list, after printing the error lines. *)
Theorem empty_dataset_raises data_dir :
  first_listdir_error listdir path_join data_dir (enumerate GENRES) = None ->
  (forall v,
     In v (listed_wavs listdir path_join data_dir (enumerate GENRES)) ->
     is_ok (result_of v) = false) ->
  load data_dir =
  (lines_of (listed_wavs listdir path_join data_dir (enumerate GENRES)),
   Raise "zero-size array to reduction operation maximum which has no identity").
Proof.
  intros Hls Hnone. rewrite (load_walk data_dir Hls). cbv zeta.
  now rewrite (labels_of_none _ Hnone).
Qed.


(** *** When a listing raises *)

Lemma genre_loop_abort data_dir pre gi g post st e :
  first_listdir_error listdir path_join data_dir pre = None ->
  listdir (path_join data_dir g) = Raise e ->
  outer data_dir (pre ++ (gi, g) :: post) st =
  (fst (outer data_dir pre st), Some e).
Proof.
  revert st. induction pre as [|[gi0 g0] pre IH]; intros st Hpre Hls; simpl.
  - now rewrite Hls.
  - simpl in Hpre.
    destruct (listdir (path_join data_dir g0)) as [files|e0]; [|discriminate].
    now apply IH.
Qed.

(** X10: when the listing of a genre directory raises after the
    directories of the genres before it were listed, the function raises
    that exception; what it has printed are the error lines of the files
    of the earlier genres, and the genres after it play no part. *)
Theorem listing_failure_stops_walk data_dir pre gi g post e :
  enumerate GENRES = pre ++ (gi, g) :: post ->
  first_listdir_error listdir path_join data_dir pre = None ->
  listdir (path_join data_dir g) = Raise e ->
  load data_dir = (lines_of (listed_wavs listdir path_join data_dir pre), Raise e).
Proof.
  intros Hsplit Hpre Hls. unfold load_and_preprocess_data.
  rewrite Hsplit, (genre_loop_abort data_dir pre gi g post init_state e Hpre Hls).
  now rewrite (genre_loop_walk data_dir pre init_state Hpre).
Qed.

(** *** Features and their labels *)

Lemma features_of_pairs (vs : list (nat * string * string)) :
  features_of vs =
  map snd (flat_map (fun v => visit_pairs (fst (fst v)) (result_of v)) vs) /\
  labels_of vs =
  map fst (flat_map (fun v => visit_pairs (fst (fst v)) (result_of v)) vs).
Proof.
  induction vs as [|v vs [IHf IHl]]; simpl; [now split|].
  rewrite !map_app, <- IHf, <- IHl.
  destruct (result_of v); now split.
Qed.

Lemma enumerate_from_inv {A} (l : list A) (start i : nat) (a : A) :
  In (i, a) (combine (seq start (length l)) l) ->
  start <= i /\ nth_error l (i - start) = Some a.
Proof.
  revert start. induction l as [|b l IH]; intros start; simpl; [tauto|].
  intros [[= <- <-] | Hin].
  - split; [lia|]. now rewrite Nat.sub_diag.
  - destruct (IH (S start) Hin) as [Hle Hnth]. split; [lia|].
    replace (i - start) with (S (i - S start)) by lia. exact Hnth.
Qed.

Lemma enumerate_inv {A} (l : list A) (i : nat) (a : A) :
  In (i, a) (enumerate l) -> nth_error l i = Some a.
Proof.
  intros Hin. destruct (enumerate_from_inv l 0 i a Hin) as [_ Hnth].
  now rewrite Nat.sub_0_r in Hnth.
Qed.

Lemma listed_wavs_inv data_dir genres v :
  In v (listed_wavs listdir path_join data_dir genres) ->
  exists g files,
    In (fst (fst v), g) genres /\
    snd (fst v) = path_join data_dir g /\
    listdir (path_join data_dir g) = Ok files /\
    In (snd v) files /\
    endswith (snd v) ".wav" = true.
Proof.
  unfold listed_wavs. intros Hin.
  apply in_flat_map in Hin as ([gi g] & Hg & Hin). simpl in Hin.
  destruct (listdir (path_join data_dir g)) as [files|e] eqn:E; [|destruct Hin].
  apply in_map_iff in Hin as (f & <- & Hf). unfold wav_files in Hf.
  apply filter_In in Hf as [Hf Hwav].
  exists g, files. simpl. repeat split; assumption.
Qed.

(** X11: the k-th feature and the k-th label row of a returned pair come
    from the same file: the pairs (genre index, feature) of the files
    whose extraction succeeded, in the order of the walk, give [X] by
    their features and [y] by their indices, and the index of each pair is
    the position in the genre list of the directory the file is in. *)
Theorem features_paired_with_labels data_dir out X y :
  load data_dir = (out, Ok (X, y)) ->
  let pairs :=
    flat_map (fun v => visit_pairs (fst (fst v)) (result_of v))
      (listed_wavs listdir path_join data_dir (enumerate GENRES)) in
  X = add_newaxis (map snd pairs) /\
  y = map (one_hot (list_max (map fst pairs) + 1)) (map fst pairs) /\
  Forall (fun p =>
            exists g files f,
              nth_error GENRES (fst p) = Some g /\
              listdir (path_join data_dir g) = Ok files /\
              In f files /\
              endswith f ".wav" = true /\
              extract (path_join (path_join data_dir g) f) = Ok (snd p))
         pairs.
Proof.
  intros Hload pairs.
  destruct (load_returned _ _ _ _ Hload) as (_ & HX & Hy).
  destruct (features_of_pairs
              (listed_wavs listdir path_join data_dir (enumerate GENRES)))
    as [Hf Hl].
  fold pairs in Hf, Hl.
  split; [now rewrite <- Hf|]. split; [now rewrite <- Hl|].
  apply Forall_forall. intros [gi x] Hp. subst pairs.
  apply in_flat_map in Hp as (v & Hv & Hp).
  destruct (result_of v) as [x'|e] eqn:E; simpl in Hp; [|destruct Hp].
  destruct Hp as [[= <- <-] | []].
  destruct (listed_wavs_inv _ _ _ Hv) as (g & files & Hg & Hgp & Hls & Hfile & Hwav).
  exists g, files, (snd v). simpl.
  split; [exact (enumerate_inv _ _ _ Hg)|].
  split; [exact Hls|]. split; [exact Hfile|]. split; [exact Hwav|].
  now rewrite <- Hgp.
Qed.

(** *** Width of the label array *)

Lemma list_max_In (l : list nat) : l <> [] -> In (list_max l) l.
Proof.
  induction l as [|a l IH]; [congruence|]. intros _.
  change (list_max (a :: l)) with (Nat.max a (list_max l)).
  destruct l as [|b l].
  - left. simpl. lia.
  - destruct (Nat.max_spec a (list_max (b :: l))) as [[_ ->] | [_ ->]].
    + right. apply IH. discriminate.
    + now left.
Qed.

Lemma labels_of_in_genres data_dir l :
  In l (labels_of (listed_wavs listdir path_join data_dir (enumerate GENRES))) ->
  l < length GENRES.
Proof.
  intros Hl. destruct (labels_of_success _ l Hl) as (v & x & Hv & _ & <-).
  destruct (listed_wavs_inv _ _ _ Hv) as (g & files & Hg & _).
  apply enumerate_inv in Hg. apply nth_error_Some. congruence.
Qed.

(** X12: all rows of a returned label array have one width, between 1
    and the number of genres, and the width is the number of genres
    exactly when a [.wav] file of the directory of the last genre, rock,
    gave a feature. *)
Theorem label_width_is_ten_iff_rock data_dir out X y :
  load data_dir = (out, Ok (X, y)) ->
  exists w,
    1 <= w <= length GENRES /\
    Forall (fun row => length row = w) y /\
    (w = length GENRES <->
     exists files f x,
       listdir (path_join data_dir "rock") = Ok files /\
       In f files /\
       endswith f ".wav" = true /\
       extract (path_join (path_join data_dir "rock") f) = Ok x).
Proof.
  intros Hload. destruct (load_returned _ _ _ _ Hload) as (_ & _ & Hy).
  set (ls := labels_of (listed_wavs listdir path_join data_dir (enumerate GENRES)))
    in *.
  assert (Hbound : forall l, In l ls -> l < length GENRES).
  { intros l Hl. now apply (labels_of_in_genres data_dir). }
  assert (Hmax : list_max ls < length GENRES).
  { destruct ls as [|l0 ls0] eqn:E; [simpl; lia|].
    apply Hbound. rewrite <- E. apply list_max_In. rewrite E. discriminate. }
  exists (list_max ls + 1). split; [lia|]. split.
  - rewrite Hy. apply Forall_map, Forall_forall. intros l _. apply length_one_hot.
  - split.
    + intros Hw.
      assert (Hne : ls <> []).
      { intros Hnil. rewrite Hnil in Hw. simpl in Hw. discriminate. }
      pose proof (list_max_In ls Hne) as Hin.
      replace (list_max ls) with 9 in Hin by (simpl in Hw; lia).
      destruct (labels_of_success _ 9 Hin) as (v & x & Hv & Hres & Hgi).
      destruct (listed_wavs_inv _ _ _ Hv) as (g & files & Hg & Hgp & Hls & Hf & Hwav).
      rewrite Hgi in Hg. apply enumerate_inv in Hg. simpl in Hg.
      injection Hg as <-.
      exists files, (snd v), x. rewrite Hgp in Hres. now repeat split.
    + intros (files & f & x & Hls & Hf & Hwav & Hres).
      pose proof (listed_wavs_In data_dir (enumerate GENRES) 9 "rock" files f
                    (enumerate_nth GENRES 9 "rock" eq_refl) Hls Hf Hwav) as Hin.
      destruct (walk_aligned _ (9, path_join data_dir "rock", f) x Hin Hres)
        as (k & _ & Hlk).
      apply nth_error_In, list_max_ge in Hlk. fold ls in Hlk. simpl in Hlk, Hmax |- *.
      lia.
Qed.

(** *** Order of the labels *)

Lemma labels_of_listing gi gp (fs : list string) :
  Forall (fun l => l = gi) (labels_of (map (fun f => (gi, gp, f)) fs)).
Proof.
  induction fs as [|f fs IH]; simpl; [constructor|].
  apply Forall_app. split; [|exact IH].
  destruct (extract (path_join gp f)); simpl; repeat constructor.
Qed.

Lemma StronglySorted_app (l1 l2 : list nat) :
  StronglySorted le l1 -> StronglySorted le l2 ->
  (forall a b, In a l1 -> In b l2 -> a <= b) ->
  StronglySorted le (l1 ++ l2).
Proof.
  induction 1 as [|a l1 Hs IH Ha]; intros H2 Hcross; simpl; [exact H2|].
  constructor.
  - apply IH; [exact H2|]. intros x b Hx Hb. apply Hcross; [now right | exact Hb].
  - apply Forall_app. split; [exact Ha|].
    apply Forall_forall. intros b Hb. apply Hcross; [now left | exact Hb].
Qed.

Lemma StronglySorted_const (c : nat) (l : list nat) :
  Forall (fun x => x = c) l -> StronglySorted le l.
Proof.
  induction 1 as [|a l Ha Hl IH]; constructor; [exact IH|].
  subst a. eapply Forall_impl; [|exact Hl]. intros x ->. lia.
Qed.

Lemma labels_of_sorted_from data_dir (gs : list string) (start : nat) :
  let ls := labels_of (listed_wavs listdir path_join data_dir
                         (combine (seq start (length gs)) gs)) in
  StronglySorted le ls /\ Forall (fun l => start <= l) ls.
Proof.
  revert start. induction gs as [|g gs IH]; intros start; simpl.
  - split; constructor.
  - destruct (IH (S start)) as [IHs IHb]. unfold listed_wavs in *.
    cbn [flat_map fst snd]. rewrite flat_map_app.
    set (here := labels_of _) at 1.
    assert (Hhere : Forall (fun l => l = start) here).
    { subst here. destruct (listdir (path_join data_dir g)) as [files|e].
      - apply labels_of_listing.
      - constructor. }
    split.
    + apply StronglySorted_app; [now apply (StronglySorted_const start) | exact IHs |].
      intros a b Ha Hb. rewrite Forall_forall in Hhere, IHb.
      rewrite (Hhere a Ha). specialize (IHb b Hb). cbv beta in IHb. lia.
    + apply Forall_app. split.
      * eapply Forall_impl; [|exact Hhere]. intros x ->. lia.
      * eapply Forall_impl; [|exact IHb]. intros x Hx. cbv beta in Hx. lia.
Qed.

(** X13: the samples of a returned pair are grouped by genre, in the
    order of the genre list: the labels read back from the rows of [y]
    never decrease. *)
Theorem labels_grouped_by_genre data_dir out X y :
  load data_dir = (out, Ok (X, y)) ->
  exists ls, argmax_axis1 y = Ok ls /\ StronglySorted le ls.
Proof.
  intros Hload. destruct (load_returned _ _ _ _ Hload) as (_ & _ & Hy).
  exists (labels_of (listed_wavs listdir path_join data_dir (enumerate GENRES))).
  split.
  - rewrite Hy. apply argmax_axis1_one_hot, Forall_forall.
    intros l Hl. apply list_max_ge in Hl. lia.
  - exact (proj1 (labels_of_sorted_from data_dir GENRES 0)).
Qed.

(** *** What is printed *)

Lemma lines_of_failure (vs : list (nat * string * string)) line :
  In line (lines_of vs) ->
  exists v e, In v vs /\ result_of v = Raise e /\ line = error_line (snd v) e.
Proof.
  intros Hin. apply in_flat_map in Hin as (v & Hv & Hin).
  destruct (result_of v) as [x|e] eqn:E; simpl in Hin; [destruct Hin|].
  destruct Hin as [<- | []]. now exists v, e.
Qed.

(** X14: when every genre directory can be listed, the function prints
    one line for each [.wav] file whose extraction raises and nothing
    else: as many lines as failed files, each the error line of a failed
    file, and none at all exactly when no file fails. *)
Theorem printed_lines_are_failures data_dir :
  first_listdir_error listdir path_join data_dir (enumerate GENRES) = None ->
  let vs := listed_wavs listdir path_join data_dir (enumerate GENRES) in
  let out := fst (load data_dir) in
  length out = length (filter (fun v => negb (is_ok (result_of v))) vs) /\
  Forall (fun line =>
            exists v e, In v vs /\ result_of v = Raise e /\
                        line = error_line (snd v) e /\ contains line (snd v))
         out /\
  (out = [] <-> forall v, In v vs -> is_ok (result_of v) = true).
Proof.
  intros Hls vs out.
  assert (Hout : out = lines_of vs).
  { subst out. now rewrite (load_walk data_dir Hls). }
  rewrite Hout. split; [apply length_lines_of|]. split.
  - apply Forall_forall. intros line Hline.
    destruct (lines_of_failure vs line Hline) as (v & e & Hv & Hres & ->).
    exists v, e. repeat split; try assumption.
    exists "Error processing ", (String.append ": " e). reflexivity.
  - split.
    + intros Hnil v Hv. destruct (result_of v) as [x|e] eqn:E; [reflexivity|].
      exfalso.
      assert (Hin : In (error_line (snd v) e) (lines_of vs)).
      { apply in_flat_map. exists v. split; [exact Hv|]. rewrite E. now left. }
      rewrite Hnil in Hin. destruct Hin.
    + intros Hall. destruct (lines_of vs) as [|line rest] eqn:E; [reflexivity|].
      destruct (lines_of_failure vs line ltac:(rewrite E; now left))
        as (v & e & Hv & Hres & _).
      specialize (Hall v Hv). rewrite Hres in Hall. discriminate.
Qed.

(** *** The input shape of the model *)

Lemma features_of_success (vs : list (nat * string * string)) x :
  In x (features_of vs) -> exists v, In v vs /\ result_of v = Ok x.
Proof.
  intros Hin. apply in_flat_map in Hin as (v & Hv & Hin).
  destruct (result_of v) as [x'|e] eqn:E; simpl in Hin; [|destruct Hin].
  destruct Hin as [<- | []]. now exists v.
Qed.

Lemma shape_tail_sample (x : matrix npfloat) (rest : Xarray) :
  has_shape N_MELS TIME_FRAMES x ->
  shape_tail (map (map (fun v => [v])) x :: rest) = [N_MELS; TIME_FRAMES; 1].
Proof.
  intros [Hrows Hcols].
  destruct x as [|row x]; [discriminate|].
  inversion Hcols as [|? ? Hrow _]; subst.
  destruct row as [|v row]; [discriminate|].
  unfold shape_tail, shape0, shape1. cbn [map hd length].
  rewrite !length_map. cbn [length] in Hrows, Hrow.
  now rewrite Hrows, Hrow.
Qed.

(** X15: under librosa's shape contract, [shape[1:]] of any non-empty
    selection of samples of a returned [X], such as the training part of a
    split, is (128, 250, 1), the input shape the script gives the model. *)
Theorem model_input_shape data_dir out X y (X_sel : Xarray) :
  melspectrogram_contract melspectrogram ->
  power_to_db_contract power_to_db ->
  load data_dir = (out, Ok (X, y)) ->
  X_sel <> [] ->
  incl X_sel X ->
  shape_tail X_sel = [N_MELS; TIME_FRAMES; 1].
Proof.
  intros Hmel Hdb Hload Hne Hincl.
  destruct X_sel as [|sample rest]; [congruence|].
  destruct (load_returned _ _ _ _ Hload) as (_ & HX & _).
  assert (Hin : In sample X) by (apply Hincl; now left).
  rewrite HX in Hin. unfold add_newaxis in Hin.
  apply in_map_iff in Hin as (x & <- & Hx).
  destruct (features_of_success _ x Hx) as (v & _ & Hres).
  apply shape_tail_sample.
  exact (extract_feature_shape _ _ Hmel Hdb Hres).
Qed.

End ExtractorProperties.

(** ** A file whose extraction raises *)

Section SkippedFile.

Variable waveform : Type.
Variable listdir : string -> result (list string).
Variable path_join : string -> string -> string.
Variable librosa_load : string -> Z -> bool -> result (waveform * Z).
Variable melspectrogram :
  waveform -> Z -> nat -> nat -> nat -> result (matrix R).
Variable power_to_db : matrix R -> result (matrix R).

Local Abbreviation extract := (extract_feature waveform librosa_load melspectrogram power_to_db).
Local Abbreviation step :=
  (process_file waveform path_join librosa_load melspectrogram power_to_db).
Local Abbreviation inner :=
  (process_files waveform path_join librosa_load melspectrogram power_to_db).
Local Abbreviation load ls :=
  (load_and_preprocess_data waveform ls path_join librosa_load
     melspectrogram power_to_db).
Local Abbreviation result_of v := (extract (path_join (snd (fst v)) (snd v))).
Local Abbreviation features_of vs :=
  (flat_map (fun v : nat * string * string => visit_features (result_of v)) vs).
Local Abbreviation labels_of vs :=
  (flat_map (fun v : nat * string * string =>
               visit_labels (fst (fst v)) (result_of v)) vs).

Variables (gp f : string) (e : exn) (before after : list string).
Hypothesis f_is_wav : endswith f ".wav" = true.
Hypothesis f_raises : extract (path_join gp f) = Raise e.
Hypothesis f_listed : listdir gp = Ok (before ++ f :: after).

Local Abbreviation listdir' := (without_file listdir gp before after).

Lemma error_line_contains audio_file msg :
  contains (error_line audio_file msg) audio_file.
Proof. exists "Error processing ", (String.append ": " msg). reflexivity. Qed.

Lemma first_listdir_error_without data_dir genres :
  first_listdir_error listdir' path_join data_dir genres =
  first_listdir_error listdir path_join data_dir genres.
Proof.
  induction genres as [|[gi g] genres IH]; simpl; [reflexivity|].
  unfold without_file at 1.
  destruct (String.eqb_spec (path_join data_dir g) gp) as [-> | Hne].
  - now rewrite f_listed.
  - now rewrite IH.
Qed.

Lemma wav_files_middle :
  wav_files (before ++ f :: after) = wav_files before ++ f :: wav_files after.
Proof.
  unfold wav_files. rewrite filter_app. simpl. now rewrite f_is_wav.
Qed.

Lemma listed_wavs_without data_dir genres :
  features_of (listed_wavs listdir' path_join data_dir genres) =
  features_of (listed_wavs listdir path_join data_dir genres) /\
  labels_of (listed_wavs listdir' path_join data_dir genres) =
  labels_of (listed_wavs listdir path_join data_dir genres).
Proof.
  induction genres as [|[gi g] genres [IHf IHl]]; [now split|].
  unfold listed_wavs in *. cbn [flat_map fst snd].
  rewrite !flat_map_app, IHf, IHl.
  unfold without_file.
  destruct (String.eqb_spec (path_join data_dir g) gp) as [-> | Hne];
    [|now split].
  rewrite f_listed, wav_files_middle. unfold wav_files.
  rewrite !filter_app, !map_app, !flat_map_app. cbn [map flat_map fst snd].
  rewrite f_raises. now split.
Qed.


End SkippedFile.

(** ** The training script *)

Section ScriptProperties.

Variable waveform : Type.
Variable listdir : string -> result (list string).
Variable path_join : string -> string -> string.
Variable librosa_load : string -> Z -> bool -> result (waveform * Z).
Variable melspectrogram :
  waveform -> Z -> nat -> nat -> nat -> result (matrix R).
Variable power_to_db : matrix R -> result (matrix R).
Variable train_test_split :
  Xarray -> yarray -> Q -> Z -> yarray -> result split.
Variable keras_model : Type.
Variable metrics : Type.
Variable predictions : Type.
Variable Sequential : list layer -> keras_model.
Variable compile : keras_model -> Q -> string -> list string -> keras_model.
Variable fit :
  keras_model -> generator -> nat -> Xarray * yarray ->
  list callback -> keras_model.
Variable evaluate : keras_model -> Xarray -> yarray -> metrics.
Variable predict : keras_model -> Xarray -> predictions.

Local Abbreviation load :=
  (load_and_preprocess_data waveform listdir path_join librosa_load
     melspectrogram power_to_db).
Local Abbreviation run :=
  (script waveform listdir path_join librosa_load melspectrogram power_to_db
     train_test_split keras_model metrics predictions
     Sequential compile fit evaluate predict).


(** C8: when listing the directory of one of the ten genres raises, the
    function does not return: it is left with the exception of a listing
    (the first that fails), which no handler catches, and the script, run
    on that data directory, stops with it. *)
Theorem missing_genre_directory_aborts dir g e :
  In g GENRES ->
  listdir (path_join dir g) = Raise e ->
  exists out e' g',
    load dir = (out, Raise e') /\
    In g' GENRES /\
    listdir (path_join dir g') = Raise e' /\
    (dir = data_dir -> run = Raise e').
Proof.
  intros Hg Hls. destruct (In_enumerate GENRES g Hg) as [gi Hin].
  destruct (first_listdir_error_In listdir path_join dir _ gi g e Hin Hls)
    as (e' & gi' & g' & Hfirst & Hin' & Hls').
  destruct (load_abort waveform listdir path_join librosa_load melspectrogram
              power_to_db dir e' Hfirst) as [out Hload].
  exists out, e', g'.
  split; [exact Hload|].
  split; [exact (enumerate_In _ _ _ Hin')|].
  split; [exact Hls'|].
  intros ->. unfold script. now rewrite Hload.
Qed.

End ScriptProperties.

(** ** Runs on concrete directories *)

Lemma stub_melspectrogram_contract frames :
  melspectrogram_contract (stub_melspectrogram frames).
Proof.
  intros y sr n_mels n_fft hop S [= <-]. exists (frames y). split.
  - apply repeat_length.
  - apply Forall_forall. intros row Hrow. apply repeat_spec in Hrow. subst row.
    apply repeat_length.
Qed.

Lemma db_silent_contract : power_to_db_contract db_silent.
Proof.
  intros S D r c [= <-]. apply has_shape_map_rows.
  intros row Hrow. now rewrite length_map.
Qed.

Lemma db_click_contract : power_to_db_contract db_click.
Proof.
  intros S D r c [= <-]. apply has_shape_map_rows.
  intros [|v row] Hrow; [exact Hrow|]. simpl in *. now rewrite length_map.
Qed.


Lemma silent_spectrogram_std : std silent_spectrogram = 0%R.
Proof. apply (std_const 0%R), constant_matrix_entries. Qed.

Lemma click_spectrogram_shape : has_shape N_MELS 2 click_spectrogram.
Proof.
  split; [apply repeat_length|].
  apply Forall_forall. intros row Hrow. apply repeat_spec in Hrow. now subst row.
Qed.

Lemma click_spectrogram_std : std click_spectrogram <> 0%R.
Proof.
  intros H.
  pose proof (std_zero_entries _ H 0%R) as H0.
  pose proof (std_zero_entries _ H (-80)%R) as H80.
  assert (E0 : 0%R = mean click_spectrogram).
  { apply H0. simpl. now left. }
  assert (E80 : (-80)%R = mean click_spectrogram).
  { apply H80. simpl. right. now left. }
  lra.
Qed.




(** C3: with every genre directory present and the directory of the last
    genre, rock, without a [.wav] file, nine files give a label array of
    shape (9, 9): the width is the largest label plus one, not the number
    of genres. *)
Theorem label_width_follows_largest_label :
  exists out X y,
    load_and_preprocess_data string (stub_listdir fs_no_rock) posix_join
      (stub_load []) (stub_melspectrogram (fun _ => 300)) db_click "data"
    = (out, Ok (X, y)) /\
    length X = 9 /\
    has_shape 9 9 y /\
    length GENRES = 10.
Proof.
  do 3 eexists. split; [reflexivity|].
  split; [reflexivity|].
  split; [|reflexivity].
  split; [reflexivity | repeat constructor].
Qed.




Lemma label_count_matches_features_witness :
  exists out X y,
    load_and_preprocess_data string (stub_listdir fs_ten) posix_join
      (stub_load ["data/blues/03.wav"]) (stub_melspectrogram stub_frames)
      db_click "data"
    = (out, Ok (X, y)) /\
    length y = length X /\ length X = 9 /\ length y = 9 /\
    out = ["Error processing 03.wav: could not decode"].
Proof.
  do 3 eexists. split; [reflexivity|].
  destruct (label_count_matches_features string (stub_listdir fs_ten) posix_join
              (stub_load ["data/blues/03.wav"]) (stub_melspectrogram stub_frames)
              db_click "data" _ _ _ eq_refl) as (Hlen & _ & _ & Hnine).
  destruct (Hnine eq_refl eq_refl) as [HX Hy].
  split; [exact Hlen|]. split; [exact HX|]. split; [exact Hy|].
  reflexivity.
Defined.


Lemma missing_genre_directory_aborts_witness :
  In "jazz" GENRES /\
  stub_listdir fs_script_no_jazz (posix_join data_dir "jazz") =
  Raise "No such file or directory: D:/Projects/DeepLearning/Data/genres_original/jazz" /\
  exists out e,
    load_and_preprocess_data string (stub_listdir fs_script_no_jazz) posix_join
      (stub_load []) (stub_melspectrogram stub_frames) db_click data_dir
    = (out, Raise e) /\
    script string (stub_listdir fs_script_no_jazz) posix_join (stub_load [])
      (stub_melspectrogram stub_frames) db_click stub_split
      nat (nat * nat) nat (fun _ => 0) (fun model _ _ _ => model) stub_fit
      (fun model X y => (length X, length y)) (fun model X => length X)
    = Raise e.
Proof.
  assert (Hin : In "jazz" GENRES) by (simpl; tauto).
  split; [exact Hin|].
  split; [reflexivity|].
  destruct (missing_genre_directory_aborts string (stub_listdir fs_script_no_jazz)
              posix_join (stub_load []) (stub_melspectrogram stub_frames) db_click
              stub_split nat (nat * nat) nat (fun _ => 0) (fun model _ _ _ => model)
              stub_fit (fun model X y => (length X, length y))
              (fun model X => length X)
              data_dir "jazz" _ Hin eq_refl)
    as (out & e & g & Hload & _ & _ & Hrun).
  exists out, e. split; [exact Hload | exact (Hrun eq_refl)].
Defined.

(** * Further properties of the code *)

(** ** File names *)

Lemma substring_whole (s : string) : substring 0 (String.length s) s = s.
Proof. induction s as [|c s IH]; simpl; [reflexivity | now rewrite IH]. Qed.

Lemma string_length_append (a b : string) :
  String.length (String.append a b) = String.length a + String.length b.
Proof. induction a as [|c a IH]; simpl; [reflexivity | now rewrite IH]. Qed.

Lemma substring_after_prefix (pre suf : string) :
  substring (String.length pre) (String.length suf) (String.append pre suf) = suf.
Proof.
  induction pre as [|c pre IH]; simpl.
  - apply substring_whole.
  - exact IH.
Qed.

Lemma string_split_at (n : nat) (s : string) :
  n <= String.length s ->
  exists pre, s = String.append pre (substring n (String.length s - n) s).
Proof.
  revert s. induction n as [|n IH]; intros s Hn.
  - exists "". simpl. rewrite Nat.sub_0_r. now rewrite substring_whole.
  - destruct s as [|c s]; simpl in Hn; [lia|].
    destruct (IH s ltac:(lia)) as [pre Hpre].
    exists (String c pre). simpl. now rewrite <- Hpre.
Qed.

(** X1: [endswith] holds exactly of the strings made of some prefix
    followed by the suffix. *)
Theorem endswith_iff_suffix (s suffix : string) :
  endswith s suffix = true <-> exists pre, s = String.append pre suffix.
Proof.
  unfold endswith. rewrite andb_true_iff, Nat.leb_le, String.eqb_eq. split.
  - intros [Hlen Hsub].
    destruct (string_split_at (String.length s - String.length suffix) s
                ltac:(lia)) as [pre Hpre].
    exists pre.
    replace (String.length s - (String.length s - String.length suffix))
      with (String.length suffix) in Hpre by lia.
    now rewrite Hsub in Hpre.
  - intros [pre ->]. rewrite string_length_append. split; [lia|].
    replace (String.length pre + String.length suffix - String.length suffix)
      with (String.length pre) by lia.
    apply substring_after_prefix.
Qed.

(** ** Fitting twice *)

(** X2: fitting to 250 frames is idempotent on rectangular arrays. *)
Theorem fit_time_frames_idempotent {A} (zero : A) (r c : nat) (m : matrix A) :
  has_shape r c m ->
  fit_time_frames zero (fit_time_frames zero m) = fit_time_frames zero m.
Proof.
  intros Hm.
  pose proof (has_shape_fit_time_frames zero r c m Hm) as Hfit.
  rewrite (fit_time_frames_short zero r TIME_FRAMES _ Hfit (le_n _)).
  rewrite Nat.sub_diag. apply pad_cols_0.
Qed.

Lemma fit_time_frames_idempotent_witness :
  has_shape 2 3 [[1; 2; 3]; [4; 5; 6]] /\
  fit_time_frames 0 (fit_time_frames 0 [[1; 2; 3]; [4; 5; 6]]) =
  fit_time_frames 0 [[1; 2; 3]; [4; 5; 6]].
Proof.
  assert (H : has_shape 2 3 [[1; 2; 3]; [4; 5; 6]]).
  { split; [reflexivity | repeat constructor]. }
  split; [exact H |].
  exact (fit_time_frames_idempotent 0 2 3 _ H).
Defined.

(** ** The values of a feature *)

Section FeatureValues.

Open Scope R_scope.

Lemma In_firstn {A} (n : nat) (l : list A) (x : A) : In x (firstn n l) -> In x l.
Proof.
  revert l. induction n as [|n IH]; intros [|a l]; simpl; try tauto.
  intros [-> | H]; [now left | right; now apply IH].
Qed.

(** An entry of the fitted array is the fill value or an entry of the
    array. *)
Lemma fit_time_frames_entries {A} (zero : A) (m : matrix A) (row : list A) (v : A) :
  In row (fit_time_frames zero m) -> In v row ->
  v = zero \/ In v (concat m).
Proof.
  unfold fit_time_frames, slice_cols, pad_cols.
  destruct (TIME_FRAMES <? shape1 m)%nat; intros Hrow Hv;
    apply in_map_iff in Hrow as (row' & <- & Hrow').
  - right. apply (in_matrix_concat m row' v Hrow'). now apply In_firstn in Hv.
  - apply in_app_or in Hv as [Hv | Hv].
    + right. now apply (in_matrix_concat m row' v Hrow').
    + left. now apply repeat_spec in Hv.
Qed.

Lemma standardize_entries (m : matrix R) (v : npfloat) :
  In v (concat (standardize m)) -> v = NaN \/ exists z, v = Fin z.
Proof.
  destruct (Req_dec (std m) 0) as [Hz | Hnz].
  - rewrite (standardize_zero_std m Hz). rewrite <- concat_map.
    intros Hv. apply in_map_iff in Hv as (x & <- & _). now left.
  - rewrite (standardize_finite m Hnz). unfold fin_matrix. rewrite <- concat_map.
    intros Hv. apply in_map_iff in Hv as (z & <- & _). right. now exists z.
Qed.


Lemma rsum_In_le (l : list R) (x : R) :
  Forall (fun v => 0 <= v) l -> In x l -> x <= rsum l.
Proof.
  induction 1 as [|v l Hv Hl IH]; intros Hin; [destruct Hin|].
  pose proof (rsum_nonneg l Hl) as Hnn. simpl.
  destruct Hin as [-> | Hin]; [lra|].
  specialize (IH Hin). fold (rsum l). lra.
Qed.

Lemma zscores_entry_bound (m : matrix R) (z : R) :
  std m <> 0 -> In z (concat (zscores m)) -> z * z <= INR (size m).
Proof.
  intros Hstd Hz. rewrite <- (zscores_sum_squares m Hstd).
  replace (z * z) with ((z - 0) * (z - 0)) by lra.
  apply rsum_In_le.
  - apply Forall_map, Forall_forall. intros v _. cbv beta. apply Rle_0_sqr.
  - apply in_map_iff. now exists z.
Qed.



(** *** Gain and offset *)

Lemma rsum_affine (a b : R) (l : list R) :
  rsum (map (fun x => a * x + b) l) = a * rsum l + INR (length l) * b.
Proof.
  induction l as [|x l IH].
  - simpl. lra.
  - cbn [map rsum fold_right length]. fold (rsum (map (fun x => a * x + b) l)).
    fold (rsum l). rewrite IH, S_INR. lra.
Qed.

Lemma concat_affine (a b : R) (m : matrix R) :
  concat (affine a b m) = map (fun x => a * x + b) (concat m).
Proof. unfold affine. symmetry. apply concat_map. Qed.

Lemma size_affine (a b : R) (m : matrix R) : size (affine a b m) = size m.
Proof. unfold size. now rewrite concat_affine, length_map. Qed.

Lemma mean_affine (a b : R) (m : matrix R) :
  size m <> 0%nat -> mean (affine a b m) = a * mean m + b.
Proof.
  intros Hn. pose proof (INR_size_pos m Hn) as Hpos.
  unfold mean. rewrite size_affine, concat_affine, rsum_affine. fold (size m).
  field. lra.
Qed.

Lemma std_affine (a b : R) (m : matrix R) :
  0 <= a -> size m <> 0%nat -> std (affine a b m) = a * std m.
Proof.
  intros Ha Hn. unfold std at 1.
  rewrite (mean_affine a b m Hn), size_affine, concat_affine, map_map.
  rewrite (map_ext _ (fun x => (a * a) * ((x - mean m) * (x - mean m))))
    by (intros x; ring).
  rewrite (rsum_map_scale (a * a) (fun x => (x - mean m) * (x - mean m))).
  unfold Rdiv. rewrite Rmult_assoc.
  rewrite sqrt_mult_alt by (apply Rle_0_sqr).
  rewrite (sqrt_square a Ha). reflexivity.
Qed.

Lemma np_div_scale (a u s : R) : 0 < a -> np_div (a * u) (a * s) = np_div u s.
Proof.
  intros Ha. unfold np_div.
  destruct (Req_EM_T (a * s) 0) as [Has | Has];
    destruct (Req_EM_T s 0) as [Hs | Hs]; try (exfalso; nra).
  - destruct (Req_EM_T (a * u) 0) as [Hau | Hau];
      destruct (Req_EM_T u 0) as [Hu | Hu]; try (exfalso; nra); [reflexivity|].
    destruct (Rlt_dec 0 (a * u)); destruct (Rlt_dec 0 u);
      try reflexivity; exfalso; nra.
  - f_equal. field. split; lra.
Qed.

Lemma size_0_rows {A} (m : matrix A) :
  size m = 0%nat -> forall row, In row m -> row = [].
Proof.
  intros Hz row Hrow. apply size_0_nil in Hz.
  destruct row as [|x row]; [reflexivity|].
  assert (Hin : In x (concat m)) by (apply (in_matrix_concat m (x :: row)); simpl; auto).
  rewrite Hz in Hin. destruct Hin.
Qed.



End FeatureValues.

(** ** Entries of a genre directory that are not [.wav] files *)

Section NonWavEntries.

Variable waveform : Type.
Variable listdir : string -> result (list string).
Variable path_join : string -> string -> string.
Variable librosa_load : string -> Z -> bool -> result (waveform * Z).
Variable melspectrogram :
  waveform -> Z -> nat -> nat -> nat -> result (matrix R).
Variable power_to_db : matrix R -> result (matrix R).

Local Abbreviation inner :=
  (process_files waveform path_join librosa_load melspectrogram power_to_db).
Local Abbreviation outer ls :=
  (genre_loop waveform ls path_join librosa_load melspectrogram power_to_db).
Local Abbreviation load ls :=
  (load_and_preprocess_data waveform ls path_join librosa_load
     melspectrogram power_to_db).

Lemma wav_files_idempotent (files : list string) :
  wav_files (wav_files files) = wav_files files.
Proof.
  unfold wav_files. induction files as [|f files IH]; simpl; [reflexivity|].
  destruct (endswith f ".wav") eqn:E; simpl; [|exact IH].
  now rewrite E, IH.
Qed.

Lemma process_files_only_wavs gi gp files st :
  inner gi gp (wav_files files) st = inner gi gp files st.
Proof.
  rewrite !(process_files_walk waveform path_join librosa_load melspectrogram
              power_to_db).
  cbv zeta. now rewrite wav_files_idempotent.
Qed.

Lemma genre_loop_only_wavs data_dir genres st :
  outer (only_wavs listdir) data_dir genres st = outer listdir data_dir genres st.
Proof.
  revert st. induction genres as [|[gi g] genres IH]; intros st; simpl;
    [reflexivity|].
  unfold only_wavs at 1.
  destruct (listdir (path_join data_dir g)) as [files|e]; [|reflexivity].
  now rewrite process_files_only_wavs, IH.
Qed.

(** X16: entries of the genre directories whose name does not end in
    [.wav] have no effect: what the function prints and what it returns or
    raises are the same as for the directories with those entries
    removed. *)
Theorem non_wav_entries_ignored data_dir :
  load (only_wavs listdir) data_dir = load listdir data_dir.
Proof.
  unfold load_and_preprocess_data. now rewrite genre_loop_only_wavs.
Qed.

End NonWavEntries.

(** ** Output shape of the model *)

Lemma conv_same_shape filters kernel activation l2 input_shape h w c :
  layer_output_shape (Conv2D filters kernel "same" activation l2 input_shape)
    [h; w; c] = Ok [h; w; filters].
Proof. destruct kernel. reflexivity. Qed.

Lemma halve_dim (h : nat) : 2 <= h -> (h - 2) / 2 + 1 = h / 2.
Proof.
  intros Hh. replace h with ((h - 2) + 1 * 2) at 2 by lia.
  now rewrite Nat.div_add.
Qed.

Lemma pool_2_shape h w c :
  2 <= h -> 2 <= w ->
  layer_output_shape (MaxPooling2D (2, 2)) [h; w; c] = Ok [h / 2; w / 2; c].
Proof.
  intros Hh Hw. cbn [layer_output_shape].
  apply Nat.leb_le in Hh as Hh', Hw as Hw'. rewrite Hh', Hw'. cbn [Nat.leb andb].
  now rewrite (halve_dim h Hh), (halve_dim w Hw).
Qed.

Lemma conv_block_shape filters input_shape h w c rest :
  2 <= h -> 2 <= w ->
  model_output_shape
    (Conv2D filters (3, 3) "same" "relu" (1 # 1000) input_shape
     :: BatchNormalization :: MaxPooling2D (2, 2) :: SpatialDropout2D (2 # 10)
     :: rest) [h; w; c] =
  model_output_shape rest [h / 2; w / 2; filters].
Proof.
  intros Hh Hw. cbn [model_output_shape].
  rewrite conv_same_shape. cbn [bind].
  change (layer_output_shape BatchNormalization [h; w; filters])
    with (Ok [h; w; filters]).
  cbn [bind]. rewrite (pool_2_shape h w filters Hh Hw). reflexivity.
Qed.

Lemma eighth_dim (h : nat) :
  8 <= h -> 2 <= h / 2 /\ 2 <= h / 2 / 2 /\ h / 2 / 2 / 2 = h / 8.
Proof.
  intros Hh. rewrite !Nat.Div0.div_div. change (2 * 2) with 4. change (4 * 2) with 8.
  split; [|split; [|reflexivity]].
  - apply Nat.div_le_lower_bound; lia.
  - apply Nat.div_le_lower_bound; lia.
Qed.



(** ** Further runs on concrete directories *)

Lemma empty_dataset_raises_witness :
  first_listdir_error (stub_listdir fs_no_wav) posix_join "data" (enumerate GENRES)
  = None /\
  load_and_preprocess_data string (stub_listdir fs_no_wav) posix_join
    (stub_load []) (stub_melspectrogram stub_frames) db_click "data"
  = ([], Raise "zero-size array to reduction operation maximum which has no identity").
Proof.
  split; [reflexivity|].
  exact (empty_dataset_raises string (stub_listdir fs_no_wav) posix_join
           (stub_load []) (stub_melspectrogram stub_frames) db_click "data"
           eq_refl (fun v (H : In v []) => match H with end)).
Defined.

Lemma listing_failure_stops_walk_witness :
  enumerate GENRES =
  firstn 5 (enumerate GENRES) ++ (5, "jazz") :: skipn 6 (enumerate GENRES) /\
  first_listdir_error (stub_listdir fs_broken) posix_join "data"
    (firstn 5 (enumerate GENRES)) = None /\
  stub_listdir fs_broken (posix_join "data" "jazz") =
  Raise "No such file or directory: data/jazz" /\
  load_and_preprocess_data string (stub_listdir fs_broken) posix_join
    (stub_load ["data/blues/bad.wav"]) (stub_melspectrogram stub_frames)
    db_click "data"
  = (["Error processing bad.wav: could not decode"],
     Raise "No such file or directory: data/jazz").
Proof.
  do 3 (split; [reflexivity|]).
  exact (listing_failure_stops_walk string (stub_listdir fs_broken) posix_join
           (stub_load ["data/blues/bad.wav"]) (stub_melspectrogram stub_frames)
           db_click "data" (firstn 5 (enumerate GENRES)) 5 "jazz"
           (skipn 6 (enumerate GENRES)) _ eq_refl eq_refl eq_refl).
Defined.

Lemma features_paired_with_labels_witness :
  exists out X y,
    load_and_preprocess_data string (stub_listdir fs_full) posix_join
      (stub_load []) (stub_melspectrogram stub_frames) db_click "data"
    = (out, Ok (X, y)) /\
    y = map (one_hot 10) [0; 1; 2; 3; 4; 5; 6; 7; 8; 9].
Proof.
  do 3 eexists. split; [reflexivity|].
  exact (proj1 (proj2
           (features_paired_with_labels string (stub_listdir fs_full) posix_join
              (stub_load []) (stub_melspectrogram stub_frames) db_click "data"
              _ _ _ eq_refl))).
Defined.

Lemma label_width_is_ten_iff_rock_witness :
  exists out X y,
    load_and_preprocess_data string (stub_listdir fs_no_rock) posix_join
      (stub_load []) (stub_melspectrogram stub_frames) db_click "data"
    = (out, Ok (X, y)) /\
    exists w,
      1 <= w <= length GENRES /\
      Forall (fun row => length row = w) y /\
      (w = length GENRES <->
       exists files f x,
         stub_listdir fs_no_rock (posix_join "data" "rock") = Ok files /\
         In f files /\
         endswith f ".wav" = true /\
         extract_feature string (stub_load []) (stub_melspectrogram stub_frames)
           db_click (posix_join (posix_join "data" "rock") f) = Ok x).
Proof.
  do 3 eexists. split; [reflexivity|].
  exact (label_width_is_ten_iff_rock string (stub_listdir fs_no_rock) posix_join
           (stub_load []) (stub_melspectrogram stub_frames) db_click "data"
           _ _ _ eq_refl).
Defined.

Lemma labels_grouped_by_genre_witness :
  exists out X y,
    load_and_preprocess_data string (stub_listdir fs_ten) posix_join
      (stub_load ["data/blues/03.wav"]) (stub_melspectrogram stub_frames)
      db_click "data"
    = (out, Ok (X, y)) /\
    exists ls, argmax_axis1 y = Ok ls /\ StronglySorted le ls.
Proof.
  do 3 eexists. split; [reflexivity|].
  exact (labels_grouped_by_genre string (stub_listdir fs_ten) posix_join
           (stub_load ["data/blues/03.wav"]) (stub_melspectrogram stub_frames)
           db_click "data" _ _ _ eq_refl).
Defined.

Lemma printed_lines_are_failures_witness :
  first_listdir_error (stub_listdir fs_ten) posix_join "data" (enumerate GENRES)
  = None /\
  length (fst (load_and_preprocess_data string (stub_listdir fs_ten) posix_join
                 (stub_load ["data/blues/03.wav"])
                 (stub_melspectrogram stub_frames) db_click "data")) = 1.
Proof.
  split; [reflexivity|].
  exact (proj1 (printed_lines_are_failures string (stub_listdir fs_ten) posix_join
                  (stub_load ["data/blues/03.wav"])
                  (stub_melspectrogram stub_frames) db_click "data" eq_refl)).
Defined.

Lemma model_input_shape_witness :
  melspectrogram_contract (stub_melspectrogram stub_frames) /\
  power_to_db_contract db_click /\
  exists out X y,
    load_and_preprocess_data string (stub_listdir fs_full) posix_join
      (stub_load []) (stub_melspectrogram stub_frames) db_click "data"
    = (out, Ok (X, y)) /\
    X <> [] /\ incl X X /\
    shape_tail X = [N_MELS; TIME_FRAMES; 1].
Proof.
  split; [apply stub_melspectrogram_contract|].
  split; [apply db_click_contract|].
  do 3 eexists. split; [reflexivity|].
  match goal with
  | |- ?X <> [] /\ _ =>
      assert (Hne : X <> [])
        by (intros H; apply (f_equal (@length _)) in H; discriminate H)
  end.
  split; [exact Hne|]. split; [apply incl_refl|].
  exact (model_input_shape string (stub_listdir fs_full) posix_join
           (stub_load []) (stub_melspectrogram stub_frames) db_click "data"
           _ _ _ _
           (stub_melspectrogram_contract stub_frames) db_click_contract
           eq_refl Hne (incl_refl _)).
Defined.
